(** * glojure: the Lisp reader (lang/LispReader.go)

    A shallow embedding of the reader of [lang/LispReader.go] and of the
    properties its specification states about it.

    Conventions of the embedding.
    - A Go [rune] is an integer [Z]; a Go [string] is the list of its runes
      (the reader only ever builds strings with [WriteRune] and slices them
      at ASCII boundaries, so bytes and runes agree where it matters).
    - [interface{}] values are the inductive [Value]; the comparison [==]
      between an interface value and a typed value is written out at each
      use, following Go's rule (same dynamic type and same value).
    - The reader [lr] is one object; its mutable parts (the [bufio.Reader],
      the [container/list] objects it allocates, the dynamic binding of
      [READEVAL]) form the record [State], threaded through a small
      state-and-panic monad.
    - Loops over the input get the number of remaining runes as fuel; the
      mutually recursive [Read] / [Invoke] / [ReadDelimitedList] take an
      explicit fuel argument. *)

From Stdlib Require Import ZArith List String Ascii Bool Lia.
Import ListNotations.

Set Warnings "-register-all".

Local Open Scope Z_scope.

(* ------------------------------------------------------------------ *)
(** ** Runes and strings *)

Definition rune := Z.

Definition R (c : ascii) : rune := Z.of_N (N_of_ascii c).

Fixpoint runes (s : string) : list rune :=
  match s with
  | EmptyString => []
  | String c s' => R c :: runes s'
  end.

Fixpoint runes_eqb (a b : list rune) : bool :=
  match a, b with
  | [], [] => true
  | x :: a', y :: b' => (x =? y) && runes_eqb a' b'
  | _, _ => false
  end.

(** [strings.HasPrefix], [strings.HasSuffix], [strings.Index(s, sep) != -1]. *)
Fixpoint HasPrefix (s prefix : list rune) : bool :=
  match prefix, s with
  | [], _ => true
  | p :: prefix', c :: s' => (c =? p) && HasPrefix s' prefix'
  | _ :: _, [] => false
  end.

Definition HasSuffix (s suffix : list rune) : bool :=
  HasPrefix (rev s) (rev suffix).

Fixpoint Contains (s sep : list rune) : bool :=
  HasPrefix s sep ||
  match s with
  | [] => false
  | _ :: s' => Contains s' sep
  end.

(* ------------------------------------------------------------------ *)
(** ** Package [unicode] *)

Definition MaxLatin1 : rune := 255.

(** [unicode.IsSpace]: the Latin-1 switch, then the [White_Space] table. *)
Definition IsSpace (r : rune) : bool :=
  if (0 <=? r) && (r <=? MaxLatin1) then
    ((9 <=? r) && (r <=? 13)) || (r =? 32) || (r =? 133) || (r =? 160)
  else
    (r =? 5760) || ((8192 <=? r) && (r <=? 8202)) || (r =? 8232) ||
    (r =? 8233) || (r =? 8239) || (r =? 8287) || (r =? 12288).

(** [unicode.IsDigit]: ['0'..'9'] up to Latin-1, the [Digit] range table
    above it.  The table belongs to the Go release, so it is a parameter
    ([unicode_Digit] below). *)
Definition IsDigit_with (table : rune -> bool) (r : rune) : bool :=
  if r <=? MaxLatin1 then (48 <=? r) && (r <=? 57) else table r.

(* ------------------------------------------------------------------ *)
(** ** Package [strconv]: [ParseInt(s, 10, 64)] *)

Definition is_ascii_digit (r : rune) : bool := (48 <=? r) && (r <=? 57).

(** [ParseUint(s, 10, 64)] without the range check: digits only, no
    underscores (base is given explicitly), at least one digit. *)
Fixpoint parse_digits (acc : Z) (s : list rune) : option Z :=
  match s with
  | [] => Some acc
  | c :: s' =>
      if is_ascii_digit c then parse_digits (acc * 10 + (c - 48)) s'
      else None
  end.

Definition ParseUint10 (s : list rune) : option Z :=
  match s with
  | [] => None
  | _ => parse_digits 0 s
  end.

(** [ParseInt(s, 10, 64)]: [Some n] when [err == nil], [None] on a syntax or
    range error. *)
Definition ParseInt (s : list rune) : option Z :=
  match s with
  | [] => None
  | c :: s' =>
      let neg := c =? R "-" in
      let body := if (c =? R "+") || neg then s' else s in
      match ParseUint10 body with
      | None => None
      | Some un =>
          let cutoff := 2 ^ 63 in
          if negb neg && (cutoff <=? un) then None
          else if neg && (cutoff <? un) then None
          else Some (if neg then - un else un)
      end
  end.

(* ------------------------------------------------------------------ *)
(** ** Package [regexp], as far as [symbolPat] needs it

    Leftmost-first matching (the match a backtracking search finds first),
    with numbered capture groups.  Repetition is only ever applied to a
    character class in the patterns of this file. *)

Inductive re : Type :=
| Chr (p : rune -> bool)
| StarChr (p : rune -> bool)
| Opt (r : re)
| Seq (r1 r2 : re)
| Alt (r1 r2 : re)
| Group (n : nat) (r : re).

Definition Caps := list (nat * list rune).

Fixpoint cap (n : nat) (c : Caps) : list rune :=
  match c with
  | [] => []
  | (m, s) :: c' => if Nat.eqb m n then s else cap n c'
  end.

Definition consumed (s s' : list rune) : list rune :=
  firstn (List.length s - List.length s') s.

Fixpoint star_chr {A} (p : rune -> bool) (s : list rune)
         (k : list rune -> option A) : option A :=
  match s with
  | c :: s' =>
      if p c then
        match star_chr p s' k with
        | Some r => Some r
        | None => k s
        end
      else k s
  | [] => k s
  end.

Fixpoint rmatch {A} (r : re) (s : list rune) (c : Caps)
         (k : list rune -> Caps -> option A) : option A :=
  match r with
  | Chr p =>
      match s with
      | x :: s' => if p x then k s' c else None
      | [] => None
      end
  | StarChr p => star_chr p s (fun s' => k s' c)
  | Opt r1 =>
      match rmatch r1 s c k with
      | Some a => Some a
      | None => k s c
      end
  | Seq r1 r2 => rmatch r1 s c (fun s' c' => rmatch r2 s' c' k)
  | Alt r1 r2 =>
      match rmatch r1 s c k with
      | Some a => Some a
      | None => rmatch r2 s c k
      end
  | Group n r1 =>
      rmatch r1 s c (fun s' c' => k s' ((n, consumed s s') :: c'))
  end.

(** The leftmost match of [r] in [s]: the matched text and the groups. *)
Fixpoint find (r : re) (s : list rune) : option (list rune * Caps) :=
  match rmatch r s [] (fun s' c => Some (consumed s s', c)) with
  | Some m => Some m
  | None =>
      match s with
      | [] => None
      | _ :: s' => find r s'
      end
  end.

(** [re.FindString(s)]: the text of the leftmost match, [""] without one. *)
Definition FindString (r : re) (s : list rune) : list rune :=
  match find r s with
  | Some (m, _) => m
  | None => []
  end.

(** [re.FindStringSubmatch(s)[i]]; a group that took no part is [""]. *)
Definition FindStringSubmatch (r : re) (s : list rune) (i : nat) : list rune :=
  match find r s with
  | Some (m, c) => match i with O => m | _ => cap i c end
  | None => []
  end.

Definition is_rune (c : ascii) : rune -> bool := fun x => x =? R c.
(** [.] without the [s] flag: any rune but a newline. *)
Definition re_dot : rune -> bool := fun x => negb (x =? 10).
(** [[^/\d]] and [[^\d/]]. *)
Definition not_slash_digit : rune -> bool :=
  fun x => negb ((x =? R "/") || is_ascii_digit x).
(** [[^/]]. *)
Definition not_slash : rune -> bool := fun x => negb (x =? R "/").

(** [symbolPat], read left to right: an optional [:]; optionally group 1,
    made of one rune that is neither [/] nor a digit, any runes, and a [/];
    then group 2, either a single [/] or one rune that is neither a digit
    nor [/] followed by any runes other than [/]. *)
Definition symbolPat : re :=
  Seq (Opt (Chr (is_rune ":")))
      (Seq (Opt (Group 1 (Seq (Chr not_slash_digit)
                              (Seq (StarChr re_dot) (Chr (is_rune "/"))))))
           (Group 2 (Alt (Chr (is_rune "/"))
                         (Seq (Chr not_slash_digit) (StarChr not_slash))))).

(* ------------------------------------------------------------------ *)
(** ** Forms and other interface values *)

(** Modelled from the spec: the interning registry ([InternSymbol],
    [InternKeyword...]) is not part of the reader's file.  The registry is
    identity-stable: a symbol or keyword is determined by the texts it was
    interned from, so the interned object is represented by the call. *)
Inductive Symbol : Type :=
| InternSymbol (nsname : list rune)
| InternSymbolNs (ns name : list rune).

Inductive Keyword : Type :=
| InternKeyword (sym : Symbol)
| InternKeywordByNsName (nsname : list rune)
| InternKeywordByNsAndName (ns name : list rune).

(** The text a symbol is interned under: the whole text, or the namespace
    and the name around a slash. *)
Definition Symbol_text (s : Symbol) : list rune :=
  match s with
  | InternSymbol nsname => nsname
  | InternSymbolNs ns name => ns ++ R "/" :: name
  end.

(** The symbol a keyword is interned for, whichever entry point made it. *)
Definition Keyword_symbol (k : Keyword) : Symbol :=
  match k with
  | InternKeyword sym => sym
  | InternKeywordByNsName nsname => InternSymbol nsname
  | InternKeywordByNsAndName ns name => InternSymbolNs ns name
  end.

(** Identity in the registry: textually identical symbols are one object,
    and so are the keywords of one symbol. *)
Definition Symbol_eqb (a b : Symbol) : bool :=
  runes_eqb (Symbol_text a) (Symbol_text b).

Definition Keyword_eqb (a b : Keyword) : bool :=
  Symbol_eqb (Keyword_symbol a) (Keyword_symbol b).

(** The dynamic values that flow through the reader's [interface{}]
    parameters and results. *)
Inductive Value : Type :=
| VNil                                   (* nil *)
| VBool (b : bool)
| VInt (n : Z)                           (* int *)
| VFloat (bits : Z)                      (* float64, by its bit pattern *)
| VString (s : list rune)
| VSymbol (s : Symbol)                   (* *Symbol *)
| VKeyword (k : Keyword)                 (* *Keyword *)
| VList (items : list Value)             (* persistent list *)
| VVector (items : list Value)           (* persistent vector *)
| VMap (entries : list (Value * Value))  (* persistent map *)
| VRegex (pattern : list rune)           (* *regexp.Regexp *)
| VLispReader                            (* lr, the *LispReader itself *)
| VBufioReader                           (* lr.r, its *bufio.Reader *)
| VListPtr (addr : nat)                  (* *list.List *)
| VListVal (elems : list Value).         (* list.List, a struct by value *)

Definition QUOTE : Symbol := InternSymbol (runes "quote").
Definition THE_VAR : Symbol := InternSymbol (runes "var").
Definition DEREF : Symbol := InternSymbolNs (runes "clojure.core") (runes "deref").
Definition UNKNOWN : Keyword := InternKeywordByNsName (runes "unknown").

Definition EMPTY_PERSISTENT_LIST : Value := VList [].
Definition CreatePersistentListFromInterfaceSlice (l : list Value) : Value := VList l.
Definition CreateLazilyPersistentVector (l : list Value) : Value := VVector l.
(** [RT.List(a, b)]. *)
Definition RT_List (l : list Value) : Value := VList l.

(** Structural equality of values (used for map keys only). *)
Fixpoint Value_eqb (a b : Value) {struct a} : bool :=
  let fix all2 (xs ys : list Value) {struct xs} : bool :=
    match xs, ys with
    | [], [] => true
    | x :: xs', y :: ys' => Value_eqb x y && all2 xs' ys'
    | _, _ => false
    end in
  let fix all2p (xs ys : list (Value * Value)) {struct xs} : bool :=
    match xs, ys with
    | [], [] => true
    | (k, v) :: xs', (k', v') :: ys' =>
        Value_eqb k k' && Value_eqb v v' && all2p xs' ys'
    | _, _ => false
    end in
  match a, b with
  | VNil, VNil => true
  | VBool x, VBool y => Bool.eqb x y
  | VInt x, VInt y => x =? y
  | VFloat x, VFloat y => x =? y
  | VString x, VString y => runes_eqb x y
  | VSymbol x, VSymbol y => Symbol_eqb x y
  | VKeyword x, VKeyword y => Keyword_eqb x y
  | VList x, VList y => all2 x y
  | VVector x, VVector y => all2 x y
  | VMap x, VMap y => all2p x y
  | VRegex x, VRegex y => runes_eqb x y
  | VLispReader, VLispReader => true
  | VBufioReader, VBufioReader => true
  | VListPtr x, VListPtr y => Nat.eqb x y
  | VListVal x, VListVal y => all2 x y
  | _, _ => false
  end.

(** Modelled from the spec: [RT.Map] is the map-construction collaborator
    ([buildMap(pairs)], which fails on a duplicate key, the error kind
    duplicate-set-or-map-entry); it is not part of the reader's file.  It
    receives the forms flat and pairs them up in order. *)
Fixpoint pairs_of (a : list Value) : option (list (Value * Value)) :=
  match a with
  | [] => Some []
  | k :: v :: rest =>
      match pairs_of rest with
      | Some ps => Some ((k, v) :: ps)
      | None => None
      end
  | [_] => None
  end.

Fixpoint has_key (k : Value) (ps : list (Value * Value)) : bool :=
  match ps with
  | [] => false
  | (k', _) :: ps' => Value_eqb k k' || has_key k ps'
  end.

Fixpoint distinct_keys (ps : list (Value * Value)) : bool :=
  match ps with
  | [] => true
  | (k, _) :: ps' => negb (has_key k ps') && distinct_keys ps'
  end.

(** What a Go [panic] carries: a message, possibly with a text appended. *)
Inductive PanicVal : Type :=
| Msg (m : string)
| MsgWith (m : string) (text : list rune).

Definition RT_Map (a : list Value) : Value + PanicVal :=
  match pairs_of a with
  | None => inr (Msg "odd-map-literal")
  | Some ps =>
      if distinct_keys ps then inl (VMap ps)
      else inr (Msg "duplicate-set-or-map-entry")
  end.

(* ------------------------------------------------------------------ *)
(** ** The reader's state and its monad *)

(** - [input]: the runes the [bufio.Reader] has still to deliver;
    - [lastRune]: the rune the last operation on the [bufio.Reader] read,
      when that operation was a successful [ReadRune] (so that [UnreadRune]
      is legal), [None] otherwise;
    - [lists]: the [container/list] objects allocated so far, by address;
    - [READEVAL]: what [READEVAL.Deref()] returns. *)
Record State : Type := mkState {
  input : list rune;
  lastRune : option rune;
  lists : list (list Value);
  READEVAL : Value
}.

Inductive Res (A : Type) : Type :=
| Ok (a : A)
| Panic (p : PanicVal)
| OutOfFuel.
Arguments Ok {A} a.
Arguments Panic {A} p.
Arguments OutOfFuel {A}.

Definition M (A : Type) : Type := State -> Res A * State.

Definition ret {A} (a : A) : M A := fun st => (Ok a, st).

Definition bind {A B} (m : M A) (k : A -> M B) : M B :=
  fun st =>
    match m st with
    | (Ok a, st') => k a st'
    | (Panic p, st') => (Panic p, st')
    | (OutOfFuel, st') => (OutOfFuel, st')
    end.

Definition panic {A} (p : PanicVal) : M A := fun st => (Panic p, st).
Definition out_of_fuel {A} : M A := fun st => (OutOfFuel, st).

Declare Scope reader_scope.
Delimit Scope reader_scope with reader.
Notation "x <- m ;; k" := (bind m (fun x => k))
  (at level 61, m at next level, right associativity) : reader_scope.
Notation "' pat <- m ;; k" :=
  (bind m (fun x => match x with pat => k end))
  (at level 61, pat pattern, m at next level, right associativity) : reader_scope.
Notation "m ;; k" := (bind m (fun _ => k))
  (at level 61, right associativity) : reader_scope.
Local Open Scope reader_scope.

Definition lift_sum (r : Value + PanicVal) : M Value :=
  match r with
  | inl v => ret v
  | inr p => panic p
  end.

(** Modelled from the spec: [Util.SneakyThrow] is not part of the reader's
    file.  Section 4.1: any I/O failure other than EOF propagates as a fatal
    read error; the error is raised as a panic carrying its text. *)
Definition SneakyThrow {A} (err : string) : M A := panic (Msg err).

(** [bufio.ErrInvalidUnreadRune]. *)
Definition ErrInvalidUnreadRune : string := "bufio: invalid use of UnreadRune".

(** [lr.ReadRune()]: the rune and whether [err] is [io.EOF].  At the end of
    the input [bufio] returns rune 0 and forgets the last rune.  The input
    is a finite text, so [io.EOF] is the only error it can report. *)
Definition ReadRune : M (rune * bool) :=
  fun st =>
    match input st with
    | [] => (Ok (0, true), mkState [] None (lists st) (READEVAL st))
    | ch :: rest => (Ok (ch, false), mkState rest (Some ch) (lists st) (READEVAL st))
    end.

(** [lr.UnreadRune()]: [bufio] refuses unless the last operation was a
    successful [ReadRune]; the refusal is thrown. *)
Definition UnreadRune : M unit :=
  fun st =>
    match lastRune st with
    | Some ch => (Ok tt, mkState (ch :: input st) None (lists st) (READEVAL st))
    | None => SneakyThrow ErrInvalidUnreadRune st
    end.

(** [list.New()]: a fresh, empty list object. *)
Definition list_New : M Value :=
  fun st =>
    (Ok (VListPtr (List.length (lists st))),
     mkState (input st) (lastRune st) (lists st ++ [[]]) (READEVAL st)).

Definition ensurePending (pendingForms : Value) : M Value :=
  match pendingForms with
  | VNil => list_New
  | _ => ret pendingForms
  end.

(** The remaining runes bound every loop over the input. *)
Definition with_input_fuel {A} (loop : nat -> M A) : M A :=
  fun st => loop (S (List.length (input st))) st.

(* ------------------------------------------------------------------ *)
(** ** What the reader's file takes from elsewhere *)

Record Namespace : Type := { ns_name : Symbol }.

Record Externals : Type := {
  (** the [unicode.Digit] table above Latin-1 *)
  unicode_Digit : rune -> bool;
  (** [strconv.ParseFloat(s, 64)]: the bits of the result when [err == nil] *)
  ParseFloat : list rune -> option Z;
  (** whether [regexp.MustCompile] accepts the pattern, and the text it
      panics with when it does not *)
  regexp_valid : list rune -> bool;
  MustCompile_panic : list rune -> string;
  (** the fields [ns] and [name] of an interned symbol *)
  Symbol_ns : Symbol -> list rune;
  Symbol_name : Symbol -> list rune;
  (** [Compiler.CurrentNS()] and [Compiler.NamespaceFor(ns, sym)] *)
  CurrentNS : option Namespace;
  NamespaceFor : option Namespace -> Symbol -> option Namespace
}.

(** The handlers stored in the macro tables, by their Go type. *)
Inductive IFn : Type :=
| StringReader | CommentReader | WrappingReader (sym : Symbol)
| MetaReader | SyntaxQuoteReader | UnquoteReader | ListReader
| UnmatchedDelimiterReader | VectorReader | MapReader | RuneReader
| ArgReader | DispatchReader | VarReader | RegexReader | FnReader
| SetReader | EvalReader | UnreadableReader | DiscardReader
| ConditionalReader | CtorReader.

(** The package-level variables the reader consults. *)
Record Globals : Type := mkGlobals {
  macros : rune -> option IFn;
  dispatchMacros : rune -> option IFn;
  ctorReader : IFn;
  READ_EOF : Z;
  READ_FINISHED : Z
}.

(** The rune of the double quote. *)
Definition DQUOTE : rune := 34.

Definition lookup (tbl : list (rune * IFn)) (ch : rune) : option IFn :=
  match List.find (fun e => fst e =? ch) tbl with
  | Some e => Some (snd e)
  | None => None
  end.

Definition src_macros : rune -> option IFn :=
  lookup [ (DQUOTE, StringReader); (R ";", CommentReader);
           (R "'", WrappingReader QUOTE); (R "@", WrappingReader DEREF);
           (R "^", MetaReader); (R "`", SyntaxQuoteReader);
           (R "~", UnquoteReader); (R "(", ListReader);
           (R ")", UnmatchedDelimiterReader); (R "[", VectorReader);
           (R "]", UnmatchedDelimiterReader); (R "{", MapReader);
           (R "}", UnmatchedDelimiterReader); (R "\", RuneReader);
           (R "%", ArgReader); (R "#", DispatchReader) ].

Definition src_dispatchMacros : rune -> option IFn :=
  lookup [ (R "^", MetaReader); (R "'", VarReader);
           (DQUOTE, RegexReader); (R "(", FnReader);
           (R "{", SetReader); (R "=", EvalReader);
           (R "!", CommentReader); (R "<", UnreadableReader);
           (R "_", DiscardReader); (R "?", ConditionalReader) ].

(** The package as the file initialises it; the two sentinels are the
    results of the two calls to [rand.Int()]. *)
Definition package (read_eof read_finished : Z) : Globals :=
  mkGlobals src_macros src_dispatchMacros CtorReader read_eof read_finished.

(* ------------------------------------------------------------------ *)
(** ** The reader *)

Section Reader.

Variable X : Externals.
Variable G : Globals.

Definition IsDigit : rune -> bool := IsDigit_with (unicode_Digit X).

Definition IsMacro (ch : rune) : bool :=
  match macros G ch with
  | Some _ => true
  | None => false
  end.

Definition IsTerminatingMacro (ch : rune) : bool :=
  negb (ch =? R "#") && negb (ch =? R "'") && negb (ch =? R "%") && IsMacro ch.

Fixpoint ReadToken_loop (fuel : nat) (b : list rune) : M (list rune) :=
  match fuel with
  | O => out_of_fuel
  | S fuel' =>
      '(ch, err) <- ReadRune ;;
      if err || IsSpace ch || IsTerminatingMacro ch then
        UnreadRune ;; ret b
      else ReadToken_loop fuel' (b ++ [ch])
  end.

Definition ReadToken (initch : rune) : M (list rune) :=
  with_input_fuel (fun fuel => ReadToken_loop fuel [initch]).

(** The loop of [ReadNumber]; what it appends is [initch], as written. *)
Fixpoint ReadNumber_loop (fuel : nat) (initch : rune) (sb : list rune)
  : M (list rune) :=
  match fuel with
  | O => out_of_fuel
  | S fuel' =>
      '(ch, err) <- ReadRune ;;
      if err || IsSpace ch || IsMacro ch then
        UnreadRune ;; ret sb
      else ReadNumber_loop fuel' initch (sb ++ [initch])
  end.

(** [int(n)] is the identity where [int] has 64 bits, which is assumed. *)
Definition ReadNumber (initch : rune) : M Value :=
  s <- with_input_fuel (fun fuel => ReadNumber_loop fuel initch [initch]) ;;
  let n := ParseInt s in
  let f := ParseFloat X s in
  match n, f with
  | None, None => panic (MsgWith "Invalid number: " s)
  | None, Some f => ret (VFloat f)
  | Some n, _ => ret (VInt n)
  end.

(** [matchSymbol]; [None] is its [nil].  [s[1:]] and [s[2:]] drop one and
    two leading runes (the match guarantees a first rune; in the second case
    both are colons). *)
Definition matchSymbol (s : list rune) : option Value :=
  let r := FindString symbolPat s in
  if negb (runes_eqb r []) then
    let ns := FindStringSubmatch symbolPat s 1 in
    let name := FindStringSubmatch symbolPat s 2 in
    if (negb (runes_eqb ns []) && HasSuffix ns (runes ":/"))
       || HasSuffix name (runes ":")
       || Contains (tl s) (runes "::") then None
    else if HasPrefix s (runes "::") then
      let ks := InternSymbol (skipn 2 s) in
      let kns :=
        if negb (runes_eqb (Symbol_ns X ks) []) then
          NamespaceFor X (CurrentNS X) ks
        else CurrentNS X in
      match kns with
      | Some kns =>
          Some (VKeyword (InternKeywordByNsAndName
                            (Symbol_name X (ns_name kns)) (Symbol_name X ks)))
      | None => None
      end
    else
      let isKeyword := HasPrefix s (runes ":") in
      if isKeyword then
        let sym := InternSymbol (skipn 1 s) in
        Some (VKeyword (InternKeyword sym))
      else Some (VSymbol (InternSymbol s))
  else None.

Definition interpretToken (s : list rune) : Value + PanicVal :=
  if runes_eqb s (runes "nil") then inl VNil
  else if runes_eqb s (runes "true") then inl (VBool true)
  else if runes_eqb s (runes "false") then inl (VBool false)
  else
    match matchSymbol s with
    | Some ret => inl ret
    | None => inr (MsgWith "Invalid token: " s)
    end.

(** The loop of [StringReader.Invoke].  The [switch] rewrites [ch] for the
    seven simple escapes, reads one more rune after [u], and leaves every
    other escaped rune as it is. *)
Fixpoint StringReader_loop (fuel : nat) (sb : list rune) : M Value :=
  match fuel with
  | O => out_of_fuel
  | S fuel' =>
      '(ch, err) <- ReadRune ;;
      if ch =? DQUOTE then ret (VString sb)
      else if err then panic (Msg "EOF while reading string")
      else if ch =? R "\" then
        '(ch, err) <- ReadRune ;;
        if err then panic (Msg "EOF while reading string")
        else
          ch <- (if ch =? R "t" then ret 9
                 else if ch =? R "r" then ret 13
                 else if ch =? R "n" then ret 10
                 else if ch =? R "\" then ret ch
                 else if ch =? DQUOTE then ret ch
                 else if ch =? R "b" then ret 8
                 else if ch =? R "f" then ret 12
                 else if ch =? R "u" then
                   '(ch, _) <- ReadRune ;; ret ch
                 else ret ch) ;;
          StringReader_loop fuel' (sb ++ [ch])
      else StringReader_loop fuel' (sb ++ [ch])
  end.

Definition StringReader_Invoke : M Value :=
  with_input_fuel (fun fuel => StringReader_loop fuel []).

Fixpoint RegexReader_loop (fuel : nat) (sb : list rune) : M Value :=
  match fuel with
  | O => out_of_fuel
  | S fuel' =>
      '(ch, err) <- ReadRune ;;
      if ch =? DQUOTE then
        if regexp_valid X sb then ret (VRegex sb)
        else panic (Msg (MustCompile_panic X sb))
      else if err then panic (Msg "EOF while reading regex")
      else if ch =? R "\" then
        '(ch2, err) <- ReadRune ;;
        if err then panic (Msg "EOF while reading regex")
        else RegexReader_loop fuel' (sb ++ [ch] ++ [ch2])
      else RegexReader_loop fuel' (sb ++ [ch])
  end.

Definition RegexReader_Invoke : M Value :=
  with_input_fuel (fun fuel => RegexReader_loop fuel []).

(** [CommentReader.Invoke]: advance through the line, return [r]. *)
Fixpoint CommentReader_loop (fuel : nat) : M Value :=
  match fuel with
  | O => out_of_fuel
  | S fuel' =>
      '(ch, err) <- ReadRune ;;
      if negb (ch =? 10) && negb (ch =? 13) && negb err then
        CommentReader_loop fuel'
      else ret VLispReader
  end.

Definition CommentReader_Invoke : M Value :=
  with_input_fuel CommentReader_loop.

(** The whitespace loop of [Read]. *)
Fixpoint skip_space (fuel : nat) (ch : rune) (err : bool) : M (rune * bool) :=
  if IsSpace ch then
    match fuel with
    | O => out_of_fuel
    | S fuel' => '(ch, err) <- ReadRune ;; skip_space fuel' ch err
    end
  else ret (ch, err).

(** The type switch of [Read] on [pendingForms]: only a [list.List] held by
    value is a case.  For a non-empty one, [pf.Remove(pf.Front())] returns
    the value of the front element; [pf] is a copy made by the switch, the
    element belongs to the list it was pushed on, so [Remove] unlinks
    nothing. *)
Definition pending_front (pendingForms : Value) : option Value :=
  match pendingForms with
  | VListVal (front :: _) => Some front
  | _ => None
  end.

(** [ret == lr.r], [form == READ_EOF], [READEVAL.Deref() == UNKNOWN],
    [result != nil]: an interface value equals a typed value when its
    dynamic type is that type and the values agree. *)
Definition is_bufio_reader (v : Value) : bool :=
  match v with VBufioReader => true | _ => false end.

Definition is_int (v : Value) (n : Z) : bool :=
  match v with VInt m => m =? n | _ => false end.

Definition is_keyword (v : Value) (k : Keyword) : bool :=
  match v with VKeyword k' => Keyword_eqb k' k | _ => false end.

Definition is_nil (v : Value) : bool :=
  match v with VNil => true | _ => false end.

Definition even_length (a : list Value) : bool := Nat.even (List.length a).

(** [Read], the body of its [for] loop, [ReadDelimitedList] with its
    accumulator, and [Invoke] for every handler.  The unreachable statements
    after the last [return] of [Read] are left out. *)
Fixpoint Read (fuel : nat) (eofIsError : bool) (eofValue : Value)
         (returnOn : rune) (returnOnValue : Value) (isRecursive : bool)
         (opts pendingForms : Value) {struct fuel} : M Value :=
  match fuel with
  | O => out_of_fuel
  | S fuel' =>
      fun st =>
        if is_keyword (READEVAL st) UNKNOWN then
          panic (Msg "Reading disallowed - *read-eval* bound to :unknown") st
        else
          Read_loop fuel' eofIsError eofValue returnOn returnOnValue
                    isRecursive opts pendingForms st
  end

with Read_loop (fuel : nat) (eofIsError : bool) (eofValue : Value)
         (returnOn : rune) (returnOnValue : Value) (isRecursive : bool)
         (opts pendingForms : Value) {struct fuel} : M Value :=
  match fuel with
  | O => out_of_fuel
  | S fuel' =>
      match pending_front pendingForms with
      | Some front => ret front
      | None =>
          '(ch, err) <- ReadRune ;;
          '(ch, err) <- with_input_fuel (fun n => skip_space n ch err) ;;
          if err then
            if eofIsError then panic (Msg "EOF while reading")
            else ret eofValue
          else if negb (returnOn =? 0) && (returnOn =? ch) then
            ret returnOnValue
          else if IsDigit ch then ReadNumber ch
          else
            match macros G ch with
            | Some macroFn =>
                ret_ <- Invoke fuel' macroFn ch opts pendingForms ;;
                if is_bufio_reader ret_ then
                  Read_loop fuel' eofIsError eofValue returnOn returnOnValue
                            isRecursive opts pendingForms
                else ret ret_
            | None =>
                if (ch =? R "+") || (ch =? R "-") then
                  '(ch2, _) <- ReadRune ;;
                  if IsDigit ch2 then UnreadRune ;; ReadNumber ch
                  else
                    UnreadRune ;;
                    token <- ReadToken ch ;;
                    lift_sum (interpretToken token)
                else
                  token <- ReadToken ch ;;
                  lift_sum (interpretToken token)
            end
      end
  end

with ReadDelimitedList_loop (fuel : nat) (a : list Value) (delim : rune)
         (isRecursive : bool) (opts pendingForms : Value) {struct fuel}
  : M (list Value) :=
  match fuel with
  | O => out_of_fuel
  | S fuel' =>
      form <- Read fuel' false (VInt (READ_EOF G)) delim
                   (VInt (READ_FINISHED G)) isRecursive opts pendingForms ;;
      if is_int form (READ_EOF G) then panic (Msg "EOF while reading")
      else if is_int form (READ_FINISHED G) then ret a
      else ReadDelimitedList_loop fuel' (a ++ [form]) delim isRecursive
                                  opts pendingForms
  end

with Invoke (fuel : nat) (fn : IFn) (ch : rune) (opts pendingForms : Value)
         {struct fuel} : M Value :=
  match fuel with
  | O => out_of_fuel
  | S fuel' =>
      match fn with
      | StringReader => StringReader_Invoke
      | RegexReader => RegexReader_Invoke
      | CommentReader => CommentReader_Invoke
      | DiscardReader =>
          pending <- ensurePending pendingForms ;;
          Read fuel' true VNil 0 VNil true opts pending ;;
          ret VLispReader
      | WrappingReader sym => ret VNil
      | VarReader =>
          pending <- ensurePending pendingForms ;;
          o <- Read fuel' true VNil 0 VNil true opts pending ;;
          ret (RT_List [VSymbol THE_VAR; o])
      | DispatchReader =>
          '(ch, err) <- ReadRune ;;
          if err then panic (Msg "EOF while reading character")
          else
            match dispatchMacros G ch with
            | None =>
                UnreadRune ;;
                pendingForms <- ensurePending pendingForms ;;
                result <- Invoke fuel' (ctorReader G) ch opts pendingForms ;;
                if negb (is_nil result) then ret result
                else panic (MsgWith "No dispatch macro for: " [ch])
            | Some fn => Invoke fuel' fn ch opts pendingForms
            end
      | ListReader =>
          pending <- ensurePending pendingForms ;;
          l <- ReadDelimitedList_loop fuel' [] (R ")") true opts pending ;;
          match l with
          | [] => ret EMPTY_PERSISTENT_LIST
          | _ => ret (CreatePersistentListFromInterfaceSlice l)
          end
      | VectorReader =>
          pending <- ensurePending pendingForms ;;
          l <- ReadDelimitedList_loop fuel' [] (R "]") true opts pending ;;
          ret (CreateLazilyPersistentVector l)
      | MapReader =>
          pending <- ensurePending pendingForms ;;
          a <- ReadDelimitedList_loop fuel' [] (R "}") true opts pending ;;
          if negb (even_length a) then
            panic (Msg "Map literal must contain an even number of forms.")
          else lift_sum (RT_Map a)
      | FnReader | ArgReader | MetaReader | SyntaxQuoteReader
      | UnquoteReader | RuneReader | EvalReader | SetReader
      | UnmatchedDelimiterReader | UnreadableReader | CtorReader
      | ConditionalReader => ret VNil
      end
  end.

Definition ReadDelimitedList (fuel : nat) (delim : rune) (isRecursive : bool)
           (opts pendingForms : Value) : M (list Value) :=
  ReadDelimitedList_loop fuel [] delim isRecursive opts pendingForms.

End Reader.

(* ------------------------------------------------------------------ *)
(** ** Instances used in the examples *)

(** An instance of the collaborators for closed examples: nothing above
    Latin-1 is a digit, no float parses, every pattern compiles, symbols
    carry no namespace and no namespace is current. *)
Definition plainExternals : Externals :=
  {| unicode_Digit := fun _ => false;
     ParseFloat := fun _ => None;
     regexp_valid := fun _ => true;
     MustCompile_panic := fun _ => EmptyString;
     Symbol_ns := fun _ => [];
     Symbol_name := fun s => match s with
                             | InternSymbol n => n
                             | InternSymbolNs _ n => n
                             end;
     CurrentNS := None;
     NamespaceFor := fun _ _ => None |}.

(** A package state for closed examples: the two values [rand.Int()]
    yields first from Go's default source seeded with 1. *)
Definition seed1_EOF : Z := 5577006791947779410.
Definition seed1_FINISHED : Z := 8674665223082153551.
Definition seed1 : Globals := package seed1_EOF seed1_FINISHED.

(** A fresh reader over a text, with [READEVAL] bound to [readeval]. *)
Definition reader_on (text : list rune) (readeval : Value) : State :=
  mkState text None [] readeval.

(** A top-level read: EOF is an error, no delimiter, no pending forms. *)
Definition read_top (X : Externals) (G : Globals) (fuel : nat) : M Value :=
  Read X G fuel true VNil 0 VNil false VNil VNil.

(** The forms of a map literal, flat, from its entries. *)
Definition flat_entries (ps : list (Value * Value)) : list Value :=
  List.concat (map (fun kv => [fst kv; snd kv]) ps).

(** [b] is [a] wherever [a] is a value or a panic: the relation between a
    run and the same run on more fuel. *)
Definition refines {A} (a b : Res A * State) : Prop :=
  fst a <> OutOfFuel -> b = a.

(** Predicates on runes used in the statements on whitespace, strings,
    comment lines and names. *)
Definition space_rune (c : rune) : Prop := IsSpace c = true.

Definition string_rune (c : rune) : Prop :=
  (c =? DQUOTE) = false /\ (c =? R "\") = false.

Definition line_rune (c : rune) : Prop :=
  (c =? 10) = false /\ (c =? 13) = false.

Definition name_rune (c : rune) : Prop :=
  (c =? R "/") = false /\ (c =? R ":") = false.

(** The escapes the [switch] of [StringReader.Invoke] rewrites, with the
    rune each stands for. *)
Definition simple_escapes : list (rune * rune) :=
  [ (R "t", 9); (R "r", 13); (R "n", 10); (R "\", R "\");
    (DQUOTE, DQUOTE); (R "b", 8); (R "f", 12) ].

(** The text of a string literal, between its quotes, and the string it
    stands for: runes other than the quote and the backslash stand for
    themselves, a simple escape stands for its rune. *)
Inductive string_text : list rune -> list rune -> Prop :=
| string_text_nil : string_text [] []
| string_text_rune c t v :
    string_rune c -> string_text t v -> string_text (c :: t) (c :: v)
| string_text_escape e x t v :
    In (e, x) simple_escapes -> string_text t v ->
    string_text (R "\" :: e :: t) (x :: v).

(** The text of a regex literal, between its quotes: runes other than the
    quote and the backslash, and pairs of a backslash and any rune. *)
Inductive regex_text : list rune -> Prop :=
| regex_text_nil : regex_text []
| regex_text_rune c t :
    string_rune c -> regex_text t -> regex_text (c :: t)
| regex_text_pair x t :
    regex_text t -> regex_text (R "\" :: x :: t).

(** The text of a string literal that the input ends before a closing
    quote.  Runes other than the quote and the backslash; escapes, that
    is a backslash with the rune after it, whichever it is, and after
    [\u] one rune more, whichever it is; and possibly, at the very end, an
    escape that the end of the input cuts after the backslash or after
    the [u]. *)
Inductive open_string_text : list rune -> Prop :=
| open_string_nil : open_string_text []
| open_string_rune c t :
    string_rune c -> open_string_text t -> open_string_text (c :: t)
| open_string_escape e t :
    (e =? R "u") = false -> open_string_text t ->
    open_string_text (R "\" :: e :: t)
| open_string_u x t :
    open_string_text t -> open_string_text (R "\" :: R "u" :: x :: t)
| open_string_cut_escape : open_string_text [R "\"]
| open_string_cut_u : open_string_text [R "\"; R "u"].

(** The text of a regex literal that the input ends before a closing
    quote: a regex text, possibly followed by a last backslash. *)
Inductive open_regex_text : list rune -> Prop :=
| open_regex_nil : open_regex_text []
| open_regex_rune c t :
    string_rune c -> open_regex_text t -> open_regex_text (c :: t)
| open_regex_pair x t :
    open_regex_text t -> open_regex_text (R "\" :: x :: t)
| open_regex_cut_pair : open_regex_text [R "\"].

(** What the [bufio.Reader] can still deliver: its input, preceded by the
    rune an [UnreadRune] would restore. *)
Definition unread_view (st : State) : list rune :=
  match lastRune st with
  | Some ch => ch :: input st
  | None => input st
  end.

Definition is_suffix (a b : list rune) : Prop := exists p, b = p ++ a.

(** From [st] to [st']: [READEVAL] is untouched, the list objects of [st]
    are untouched and the new ones are empty, and what can still be
    delivered is a suffix of what could. *)
Definition advances (st st' : State) : Prop :=
  READEVAL st' = READEVAL st /\
  (exists k, lists st' = lists st ++ repeat [] k) /\
  is_suffix (unread_view st') (unread_view st).

Definition keeps {A} (m : M A) : Prop :=
  forall st, advances st (snd (m st)).

(** The runes that close a list, a vector and a map literal. *)
Definition closing_bracket (delim : rune) : Prop :=
  delim = R ")" \/ delim = R "]" \/ delim = R "}".

(** The text of one-digit numbers, each preceded by a space. *)
Definition digit_items (ds : list Z) : list rune :=
  flat_map (fun d => [R " "; 48 + d]) ds.

(** The number of runes the input still holds. *)
Definition remaining (st : State) : nat := List.length (input st).

(** A run that ended, and with a value only if [Q] holds of the value and
    the state: a panic is an ending, running out of fuel is not. *)
Definition run_ok {A} (res : Res A * State) (Q : A -> State -> Prop) : Prop :=
  match res with
  | (Ok a, st') => Q a st'
  | (Panic _, _) => True
  | (OutOfFuel, _) => False
  end.

(** The fuel that suffices for a [Read] on [n] remaining runes. *)
Definition fuel_for (n : nat) : nat := 4 * n + 4.

(* ------------------------------------------------------------------ *)
(** ** The reference with a validator and watches ([ARef]) *)

Module ARefModel.
Section Model.

(** [IFn] values, [IPersistentMap] values and the value the package calls
    [AbstractClassMethodException]: none is declared in the file. *)
Variables (Fn PMap : Type) (AbstractClassMethodException : PanicVal).

Record ARef : Type := mkARef {
  _meta : PMap;
  validator : option Fn;
  watches : PMap
}.

(** A method on an [*ARef]: its outcome and the object afterwards. *)
Definition Step (T : Type) : Type := ARef -> Res T * ARef.

(** [Deref] as [ARef] declares it.  A call [a.Deref()] with [a] an [*ARef]
    is a call of this method: Go binds it by the static type of [a]. *)
Definition Deref : Step Value :=
  fun a => (Panic AbstractClassMethodException, a).

Definition validate (vf : option Fn) (val : Value) : Step unit :=
  fun a => (Ok tt, a).

(** [a.validate(vf, a.Deref())], then [a.validator = vf]. *)
Definition SetValidator (vf : option Fn) : Step unit :=
  fun a =>
    match Deref a with
    | (Ok val, a1) =>
        match validate vf val a1 with
        | (Ok _, a2) => (Ok tt, mkARef (_meta a2) vf (watches a2))
        | (Panic p, a2) => (Panic p, a2)
        | (OutOfFuel, a2) => (OutOfFuel, a2)
        end
    | (Panic p, a1) => (Panic p, a1)
    | (OutOfFuel, a1) => (OutOfFuel, a1)
    end.

Definition GetValidator (a : ARef) : option Fn := validator a.

Definition GetWatches (a : ARef) : PMap := watches a.

End Model.
End ARefModel.

(* ------------------------------------------------------------------ *)
(** ** Lemmas on the character loops *)

Section LoopFacts.

Variable X : Externals.
Variable G : Globals.

Definition token_rune (c : rune) : Prop :=
  IsSpace c = false /\ IsTerminatingMacro G c = false.

Definition number_rune (c : rune) : Prop :=
  IsSpace c = false /\ IsMacro G c = false.

(** A token that runs to the end of the input: the final [ReadRune] reports
    EOF, [UnreadRune] has nothing to restore and throws. *)
Lemma ReadToken_loop_eof (tok : list rune) :
  forall fuel b last ls re,
    Forall token_rune tok ->
    (List.length tok < fuel)%nat ->
    ReadToken_loop G fuel b (mkState tok last ls re)
    = (Panic (Msg ErrInvalidUnreadRune), mkState [] None ls re).
Proof.
  induction tok as [|c tok IH]; intros fuel b last ls re Hall Hfuel.
  - destruct fuel as [|fuel]; [simpl in Hfuel; lia|]. reflexivity.
  - destruct fuel as [|fuel]; [simpl in Hfuel; lia|].
    inversion Hall as [|? ? [Hs Ht] Hrest]; subst.
    cbn [ReadToken_loop]. unfold bind at 1. cbn [ReadRune input lists READEVAL].
    rewrite Hs, Ht. cbn [orb].
    apply IH; [assumption | simpl in Hfuel; lia].
Qed.

(** A token followed by a rune that ends it: the rune is pushed back and the
    token is the initial buffer followed by the runes read. *)
Lemma ReadToken_loop_stop (tok : list rune) :
  forall fuel b c rest last ls re,
    Forall token_rune tok ->
    IsSpace c || IsTerminatingMacro G c = true ->
    (List.length tok < fuel)%nat ->
    ReadToken_loop G fuel b (mkState (tok ++ c :: rest) last ls re)
    = (Ok (b ++ tok), mkState (c :: rest) None ls re).
Proof.
  induction tok as [|x tok IH]; intros fuel b c rest last ls re Hall Hc Hfuel.
  - destruct fuel as [|fuel]; [simpl in Hfuel; lia|].
    cbn [ReadToken_loop app]. unfold bind at 1. cbn [ReadRune input lists READEVAL].
    cbn [orb]. rewrite Hc. rewrite app_nil_r. reflexivity.
  - destruct fuel as [|fuel]; [simpl in Hfuel; lia|].
    inversion Hall as [|? ? [Hs Ht] Hrest]; subst.
    cbn [ReadToken_loop app]. unfold bind at 1. cbn [ReadRune input lists READEVAL].
    rewrite Hs, Ht. cbn [orb].
    rewrite IH; try assumption; [|simpl in Hfuel; lia].
    rewrite <- app_assoc. reflexivity.
Qed.

(** The loop of [ReadNumber] appends one copy of [initch] per rune read. *)
Lemma ReadNumber_loop_stop (tok : list rune) :
  forall fuel initch sb c rest last ls re,
    Forall number_rune tok ->
    IsSpace c || IsMacro G c = true ->
    (List.length tok < fuel)%nat ->
    ReadNumber_loop G fuel initch sb (mkState (tok ++ c :: rest) last ls re)
    = (Ok (sb ++ repeat initch (List.length tok)),
       mkState (c :: rest) None ls re).
Proof.
  induction tok as [|x tok IH]; intros fuel initch sb c rest last ls re Hall Hc Hfuel.
  - destruct fuel as [|fuel]; [simpl in Hfuel; lia|].
    cbn [ReadNumber_loop app]. unfold bind at 1. cbn [ReadRune input lists READEVAL].
    cbn [orb]. rewrite Hc. rewrite app_nil_r. reflexivity.
  - destruct fuel as [|fuel]; [simpl in Hfuel; lia|].
    inversion Hall as [|? ? [Hs Ht] Hrest]; subst.
    cbn [ReadNumber_loop app]. unfold bind at 1. cbn [ReadRune input lists READEVAL].
    rewrite Hs, Ht. cbn [orb].
    rewrite IH; try assumption; [|simpl in Hfuel; lia].
    cbn [List.length repeat]. rewrite <- app_assoc. reflexivity.
Qed.

Lemma ReadNumber_loop_eof (tok : list rune) :
  forall fuel initch sb last ls re,
    Forall number_rune tok ->
    (List.length tok < fuel)%nat ->
    ReadNumber_loop G fuel initch sb (mkState tok last ls re)
    = (Panic (Msg ErrInvalidUnreadRune), mkState [] None ls re).
Proof.
  induction tok as [|c tok IH]; intros fuel initch sb last ls re Hall Hfuel.
  - destruct fuel as [|fuel]; [simpl in Hfuel; lia|]. reflexivity.
  - destruct fuel as [|fuel]; [simpl in Hfuel; lia|].
    inversion Hall as [|? ? [Hs Ht] Hrest]; subst.
    cbn [ReadNumber_loop]. unfold bind at 1. cbn [ReadRune input lists READEVAL].
    rewrite Hs, Ht. cbn [orb].
    apply IH; [assumption | simpl in Hfuel; lia].
Qed.

(** The whitespace loop of [Read] stops at the first rune that is not a
    space and leaves the rest of the input. *)
Lemma skip_space_stop (ws : list rune) :
  forall fuel ch err c rest last ls re,
    IsSpace ch = true ->
    Forall (fun x => IsSpace x = true) ws ->
    IsSpace c = false ->
    (List.length ws < fuel)%nat ->
    skip_space fuel ch err (mkState (ws ++ c :: rest) last ls re)
    = (Ok (c, false), mkState rest (Some c) ls re).
Proof.
  induction ws as [|w ws IH]; intros fuel ch err c rest last ls re Hch Hall Hc Hfuel.
  - destruct fuel as [|fuel]; [simpl in Hfuel; lia|].
    cbn [skip_space app]. rewrite Hch. unfold bind. cbn [ReadRune input lists READEVAL].
    destruct fuel; cbn [skip_space]; rewrite Hc; reflexivity.
  - destruct fuel as [|fuel]; [simpl in Hfuel; lia|].
    inversion Hall; subst.
    cbn [skip_space app]. rewrite Hch. unfold bind at 1. cbn [ReadRune input lists READEVAL].
    apply IH; try assumption. simpl in Hfuel; lia.
Qed.

End LoopFacts.

(* ------------------------------------------------------------------ *)
(** ** The character loops end on the fuel they are given *)

Section LoopsEnd.
Variable X : Externals.
Variable G : Globals.

Lemma ReadToken_loop_ends : forall fuel b st,
  (List.length (input st) < fuel)%nat ->
  fst (ReadToken_loop G fuel b st) <> OutOfFuel.
Proof.
  induction fuel as [|fuel IH]; intros b [inp last ls re] Hlen; [simpl in Hlen; lia|].
  cbn [ReadToken_loop]. unfold bind at 1.
  destruct inp as [|c rest]; cbn [ReadRune input lists READEVAL].
  - cbn. discriminate.
  - cbn [orb]. destruct (IsSpace c || IsTerminatingMacro G c).
    + cbn. discriminate.
    + apply IH. simpl in *. lia.
Qed.

Lemma ReadNumber_loop_ends : forall fuel initch sb st,
  (List.length (input st) < fuel)%nat ->
  fst (ReadNumber_loop G fuel initch sb st) <> OutOfFuel.
Proof.
  induction fuel as [|fuel IH]; intros initch sb [inp last ls re] Hlen; [simpl in Hlen; lia|].
  cbn [ReadNumber_loop]. unfold bind at 1.
  destruct inp as [|c rest]; cbn [ReadRune input lists READEVAL].
  - cbn. discriminate.
  - cbn [orb]. destruct (IsSpace c || IsMacro G c).
    + cbn. discriminate.
    + apply IH. simpl in *. lia.
Qed.

Lemma CommentReader_loop_ends : forall fuel st,
  (List.length (input st) < fuel)%nat ->
  fst (CommentReader_loop fuel st) <> OutOfFuel.
Proof.
  induction fuel as [|fuel IH]; intros [inp last ls re] Hlen; [simpl in Hlen; lia|].
  cbn [CommentReader_loop]. unfold bind at 1.
  destruct inp as [|c rest]; cbn [ReadRune input lists READEVAL].
  - rewrite andb_false_r. cbn. discriminate.
  - destruct (negb (c =? 10) && negb (c =? 13) && negb false).
    + apply IH. simpl in *. lia.
    + cbn. discriminate.
Qed.

Lemma skip_space_ends : forall fuel ch err st,
  (List.length (input st) < fuel)%nat ->
  fst (skip_space fuel ch err st) <> OutOfFuel.
Proof.
  induction fuel as [|fuel IH]; intros ch err [inp last ls re] Hlen; [simpl in Hlen; lia|].
  cbn [skip_space]. destruct (IsSpace ch); [|cbn; discriminate].
  unfold bind at 1.
  destruct inp as [|c rest]; cbn [ReadRune input lists READEVAL].
  - destruct fuel; cbn [skip_space]; replace (IsSpace 0) with false by reflexivity;
      cbn; discriminate.
  - destruct fuel as [|fuel']; [simpl in Hlen; lia|].
    apply IH. simpl in *. lia.
Qed.

Lemma StringReader_loop_ends : forall fuel sb st,
  (List.length (input st) < fuel)%nat ->
  fst (StringReader_loop fuel sb st) <> OutOfFuel.
Proof.
  induction fuel as [|fuel IH]; intros sb [inp last ls re] Hlen; [simpl in Hlen; lia|].
  cbn [StringReader_loop]. unfold bind at 1.
  destruct inp as [|c rest]; cbn [ReadRune input lists READEVAL].
  - replace (0 =? DQUOTE) with false by reflexivity. cbn. discriminate.
  - destruct (c =? DQUOTE); [cbn; discriminate|].
    destruct (c =? R "\"); [|apply IH; simpl in *; lia].
    unfold bind at 1.
    destruct rest as [|c2 rest2]; cbn [ReadRune input lists READEVAL];
      [cbn; discriminate|].
    repeat match goal with
           | |- context [if ?t then _ else _] => destruct t
           end;
      try (unfold bind at 1; cbn [ret]; apply IH; simpl in *; lia).
    unfold bind at 1. unfold bind at 1.
    destruct rest2 as [|c3 rest3]; cbn [ReadRune input lists READEVAL ret];
      apply IH; simpl in *; lia.
Qed.

Lemma RegexReader_loop_ends : forall fuel sb st,
  (List.length (input st) < fuel)%nat ->
  fst (RegexReader_loop X fuel sb st) <> OutOfFuel.
Proof.
  induction fuel as [|fuel IH]; intros sb [inp last ls re] Hlen; [simpl in Hlen; lia|].
  cbn [RegexReader_loop]. unfold bind at 1.
  destruct inp as [|c rest]; cbn [ReadRune input lists READEVAL].
  - replace (0 =? DQUOTE) with false by reflexivity. cbn. discriminate.
  - destruct (c =? DQUOTE); [destruct (regexp_valid X sb); cbn; discriminate|].
    destruct (c =? R "\"); [|apply IH; simpl in *; lia].
    unfold bind at 1.
    destruct rest as [|c2 rest2]; cbn [ReadRune input lists READEVAL];
      [cbn; discriminate|].
    apply IH; simpl in *; lia.
Qed.
End LoopsEnd.

Lemma ReadToken_ends (G : Globals) (initch : rune) (st : State) :
  fst (ReadToken G initch st) <> OutOfFuel.
Proof. apply ReadToken_loop_ends. lia. Qed.

Lemma StringReader_Invoke_ends (st : State) :
  fst (StringReader_Invoke st) <> OutOfFuel.
Proof. apply StringReader_loop_ends. lia. Qed.

Lemma CommentReader_Invoke_ends (st : State) :
  fst (CommentReader_Invoke st) <> OutOfFuel.
Proof. apply CommentReader_loop_ends. lia. Qed.

Lemma RegexReader_Invoke_ends (X : Externals) (st : State) :
  fst (RegexReader_Invoke X st) <> OutOfFuel.
Proof. apply RegexReader_loop_ends. lia. Qed.

(* ------------------------------------------------------------------ *)
(** ** Unfolding equations of the mutually recursive reader *)

Section Unfolding.

Variable X : Externals.
Variable G : Globals.

Lemma Read_S fuel eofIsError eofValue returnOn returnOnValue isRecursive
      opts pendingForms st :
  Read X G (S fuel) eofIsError eofValue returnOn returnOnValue isRecursive
       opts pendingForms st
  = if is_keyword (READEVAL st) UNKNOWN then
      panic (Msg "Reading disallowed - *read-eval* bound to :unknown") st
    else Read_loop X G fuel eofIsError eofValue returnOn returnOnValue
                   isRecursive opts pendingForms st.
Proof. reflexivity. Qed.

Lemma Read_loop_S fuel eofIsError eofValue returnOn returnOnValue isRecursive
      opts pendingForms :
  Read_loop X G (S fuel) eofIsError eofValue returnOn returnOnValue
            isRecursive opts pendingForms
  = match pending_front pendingForms with
    | Some front => ret front
    | None =>
        '(ch, err) <- ReadRune ;;
        '(ch, err) <- with_input_fuel (fun n => skip_space n ch err) ;;
        if err then
          if eofIsError then panic (Msg "EOF while reading")
          else ret eofValue
        else if negb (returnOn =? 0) && (returnOn =? ch) then
          ret returnOnValue
        else if IsDigit X ch then ReadNumber X G ch
        else
          match macros G ch with
          | Some macroFn =>
              ret_ <- Invoke X G fuel macroFn ch opts pendingForms ;;
              if is_bufio_reader ret_ then
                Read_loop X G fuel eofIsError eofValue returnOn returnOnValue
                          isRecursive opts pendingForms
              else ret ret_
          | None =>
              if (ch =? R "+") || (ch =? R "-") then
                '(ch2, _) <- ReadRune ;;
                if IsDigit X ch2 then UnreadRune ;; ReadNumber X G ch
                else
                  UnreadRune ;;
                  token <- ReadToken G ch ;;
                  lift_sum (interpretToken X token)
              else
                token <- ReadToken G ch ;;
                lift_sum (interpretToken X token)
          end
    end.
Proof. reflexivity. Qed.

Lemma ReadDelimitedList_loop_S fuel a delim isRecursive opts pendingForms :
  ReadDelimitedList_loop X G (S fuel) a delim isRecursive opts pendingForms
  = (form <- Read X G fuel false (VInt (READ_EOF G)) delim
                  (VInt (READ_FINISHED G)) isRecursive opts pendingForms ;;
     if is_int form (READ_EOF G) then panic (Msg "EOF while reading")
     else if is_int form (READ_FINISHED G) then ret a
     else ReadDelimitedList_loop X G fuel (a ++ [form]) delim isRecursive
                                 opts pendingForms).
Proof. reflexivity. Qed.

Lemma Invoke_S fuel fn ch opts pendingForms :
  Invoke X G (S fuel) fn ch opts pendingForms
  = match fn with
    | StringReader => StringReader_Invoke
    | RegexReader => RegexReader_Invoke X
    | CommentReader => CommentReader_Invoke
    | DiscardReader =>
        pending <- ensurePending pendingForms ;;
        Read X G fuel true VNil 0 VNil true opts pending ;;
        ret VLispReader
    | WrappingReader sym => ret VNil
    | VarReader =>
        pending <- ensurePending pendingForms ;;
        o <- Read X G fuel true VNil 0 VNil true opts pending ;;
        ret (RT_List [VSymbol THE_VAR; o])
    | DispatchReader =>
        '(ch, err) <- ReadRune ;;
        if err then panic (Msg "EOF while reading character")
        else
          match dispatchMacros G ch with
          | None =>
              UnreadRune ;;
              pendingForms <- ensurePending pendingForms ;;
              result <- Invoke X G fuel (ctorReader G) ch opts pendingForms ;;
              if negb (is_nil result) then ret result
              else panic (MsgWith "No dispatch macro for: " [ch])
          | Some fn => Invoke X G fuel fn ch opts pendingForms
          end
    | ListReader =>
        pending <- ensurePending pendingForms ;;
        l <- ReadDelimitedList_loop X G fuel [] (R ")") true opts pending ;;
        match l with
        | [] => ret EMPTY_PERSISTENT_LIST
        | _ => ret (CreatePersistentListFromInterfaceSlice l)
        end
    | VectorReader =>
        pending <- ensurePending pendingForms ;;
        l <- ReadDelimitedList_loop X G fuel [] (R "]") true opts pending ;;
        ret (CreateLazilyPersistentVector l)
    | MapReader =>
        pending <- ensurePending pendingForms ;;
        a <- ReadDelimitedList_loop X G fuel [] (R "}") true opts pending ;;
        if negb (even_length a) then
          panic (Msg "Map literal must contain an even number of forms.")
        else lift_sum (RT_Map a)
    | FnReader | ArgReader | MetaReader | SyntaxQuoteReader
    | UnquoteReader | RuneReader | EvalReader | SetReader
    | UnmatchedDelimiterReader | UnreadableReader | CtorReader
    | ConditionalReader => ret VNil
    end.
Proof. reflexivity. Qed.

End Unfolding.

(* ------------------------------------------------------------------ *)
(** ** More fuel changes nothing *)

Lemma refines_refl {A} (a : Res A * State) : refines a a.
Proof. intros _. reflexivity. Qed.

Lemma refines_out_of_fuel {A} (st : State) (b : Res A * State) :
  refines (OutOfFuel, st) b.
Proof. intros H. exfalso. apply H. reflexivity. Qed.

Lemma refines_bind {A B} (m1 m2 : M A) (k1 k2 : A -> M B) (st : State) :
  refines (m1 st) (m2 st) ->
  (forall x st', refines (k1 x st') (k2 x st')) ->
  refines (bind m1 k1 st) (bind m2 k2 st).
Proof.
  intros Hm Hk. unfold bind, refines in *.
  destruct (m1 st) as [[x|p|] st1] eqn:E1; cbn [fst] in *.
  - rewrite Hm by discriminate. apply Hk.
  - rewrite Hm by discriminate. reflexivity.
  - intros H. exfalso. apply H. reflexivity.
Qed.

Section Fuel.

Variable X : Externals.
Variable G : Globals.

(** A run that ends, with a value or a panic, ends the same way on any
    larger fuel. *)
Lemma more_fuel (n : nat) :
  forall m, (n <= m)%nat ->
    (forall eofIsError eofValue returnOn returnOnValue isRecursive opts
            pendingForms st,
        refines (Read X G n eofIsError eofValue returnOn returnOnValue
                      isRecursive opts pendingForms st)
                (Read X G m eofIsError eofValue returnOn returnOnValue
                      isRecursive opts pendingForms st)) /\
    (forall eofIsError eofValue returnOn returnOnValue isRecursive opts
            pendingForms st,
        refines (Read_loop X G n eofIsError eofValue returnOn returnOnValue
                           isRecursive opts pendingForms st)
                (Read_loop X G m eofIsError eofValue returnOn returnOnValue
                           isRecursive opts pendingForms st)) /\
    (forall a delim isRecursive opts pendingForms st,
        refines (ReadDelimitedList_loop X G n a delim isRecursive opts
                                        pendingForms st)
                (ReadDelimitedList_loop X G m a delim isRecursive opts
                                        pendingForms st)) /\
    (forall fn ch opts pendingForms st,
        refines (Invoke X G n fn ch opts pendingForms st)
                (Invoke X G m fn ch opts pendingForms st)).
Proof.
  induction n as [|n IH]; intros m Hle.
  - repeat split; intros; apply refines_out_of_fuel.
  - destruct m as [|m]; [lia|].
    destruct (IH m ltac:(lia)) as [IHread [IHloop [IHlist IHinv]]].
    repeat split; intros.
    + rewrite !Read_S. destruct (is_keyword (READEVAL st) UNKNOWN);
        [apply refines_refl | apply IHloop].
    + rewrite !Read_loop_S.
      destruct (pending_front pendingForms); [apply refines_refl|].
      apply refines_bind; [apply refines_refl|]. intros [ch err] st1.
      apply refines_bind; [apply refines_refl|]. intros [ch1 err1] st2.
      destruct err1; [apply refines_refl|].
      destruct (negb (returnOn =? 0) && (returnOn =? ch1)); [apply refines_refl|].
      destruct (IsDigit X ch1); [apply refines_refl|].
      destruct (macros G ch1); [|apply refines_refl].
      apply refines_bind; [apply IHinv|]. intros v st3.
      destruct (is_bufio_reader v); [apply IHloop | apply refines_refl].
    + rewrite !ReadDelimitedList_loop_S.
      apply refines_bind; [apply IHread|]. intros form st1.
      destruct (is_int form (READ_EOF G)); [apply refines_refl|].
      destruct (is_int form (READ_FINISHED G)); [apply refines_refl|].
      apply IHlist.
    + rewrite !Invoke_S.
      destruct fn; try apply refines_refl;
        try (apply refines_bind; [apply refines_refl|]; intros p st1;
             apply refines_bind; [first [apply IHlist | apply IHread]|];
             intros; apply refines_refl).
      apply refines_bind; [apply refines_refl|]. intros [c err] st1.
      destruct err; [apply refines_refl|].
      destruct (dispatchMacros G c); [apply IHinv|].
      apply refines_bind; [apply refines_refl|]. intros u st2.
      apply refines_bind; [apply refines_refl|]. intros p st3.
      apply refines_bind; [apply IHinv|]. intros; apply refines_refl.
Qed.

Lemma Read_more_fuel n k eofIsError eofValue returnOn returnOnValue
      isRecursive opts pendingForms st r st' :
  Read X G n eofIsError eofValue returnOn returnOnValue isRecursive opts
       pendingForms st = (r, st') ->
  r <> OutOfFuel ->
  Read X G (n + k) eofIsError eofValue returnOn returnOnValue isRecursive opts
       pendingForms st = (r, st').
Proof.
  intros Hrun Hr.
  destruct (more_fuel n (n + k) ltac:(lia)) as [Hread _].
  rewrite <- Hrun. apply Hread. rewrite Hrun. exact Hr.
Qed.

End Fuel.

(** Evaluates a [Read] on closed arguments at fuel 20 and lifts the outcome
    to every larger fuel. *)
Ltac run_read :=
  apply Read_more_fuel; [vm_compute; reflexivity | discriminate].

(* ------------------------------------------------------------------ *)
(** ** What [Read] does at a macro trigger, and how the list loop steps *)

(** No handler returns [lr.r]: each returns a form, [nil], or the reader
    [lr] itself.  The test [ret == lr.r] of [Read], which guards its
    [continue], therefore never succeeds. *)
Lemma Invoke_never_returns_bufio_reader (X : Externals) (G : Globals) :
  forall fuel fn ch opts pendingForms st v st',
    Invoke X G fuel fn ch opts pendingForms st = (Ok v, st') ->
    is_bufio_reader v = false.
Proof.
  induction fuel as [|fuel IH]; intros fn ch opts pendingForms st v st' Hrun.
  - discriminate Hrun.
  - rewrite Invoke_S in Hrun. destruct fn.
    + (* StringReader *)
      unfold StringReader_Invoke, with_input_fuel in Hrun.
      revert Hrun. generalize (S (List.length (input st))) as n.
      generalize (@nil rune) as sb. revert st.
      intros st sb n. revert st sb.
      induction n as [|n IHn]; intros st sb Hrun; [discriminate|].
      cbn [StringReader_loop] in Hrun. unfold bind at 1 in Hrun.
      destruct (ReadRune st) as [[[c e]| |] s1]; try discriminate.
      destruct (c =? DQUOTE); [inversion Hrun; reflexivity|].
      destruct e; [discriminate|].
      destruct (c =? R "\").
      * unfold bind at 1 in Hrun.
        destruct (ReadRune s1) as [[[c2 e2]| |] s2]; try discriminate.
        destruct e2; [discriminate|].
        unfold bind at 1 in Hrun.
        match type of Hrun with
        | context [match ?m s2 with _ => _ end] => destruct (m s2) as [[x| |] s3]
        end; try discriminate.
        eapply IHn; eassumption.
      * eapply IHn; eassumption.
    + (* CommentReader *)
      unfold CommentReader_Invoke, with_input_fuel in Hrun.
      revert Hrun. generalize (S (List.length (input st))) as n. revert st.
      intros st n. revert st.
      induction n as [|n IHn]; intros st Hrun; [discriminate|].
      cbn [CommentReader_loop] in Hrun. unfold bind at 1 in Hrun.
      destruct (ReadRune st) as [[[c e]| |] s1]; try discriminate.
      destruct (negb (c =? 10) && negb (c =? 13) && negb e).
      * eapply IHn; eassumption.
      * inversion Hrun; reflexivity.
    + inversion Hrun; reflexivity.
    + inversion Hrun; reflexivity.
    + inversion Hrun; reflexivity.
    + inversion Hrun; reflexivity.
    + (* ListReader *)
      unfold bind at 1 in Hrun.
      destruct (ensurePending pendingForms st) as [[p| |] s1]; try discriminate.
      unfold bind at 1 in Hrun.
      destruct (ReadDelimitedList_loop X G fuel [] (R ")") true opts p s1)
        as [[l| |] s2]; try discriminate.
      destruct l; inversion Hrun; reflexivity.
    + inversion Hrun; reflexivity.
    + (* VectorReader *)
      unfold bind at 1 in Hrun.
      destruct (ensurePending pendingForms st) as [[p| |] s1]; try discriminate.
      unfold bind at 1 in Hrun.
      destruct (ReadDelimitedList_loop X G fuel [] (R "]") true opts p s1)
        as [[l| |] s2]; try discriminate.
      inversion Hrun; reflexivity.
    + (* MapReader *)
      unfold bind at 1 in Hrun.
      destruct (ensurePending pendingForms st) as [[p| |] s1]; try discriminate.
      unfold bind at 1 in Hrun.
      destruct (ReadDelimitedList_loop X G fuel [] (R "}") true opts p s1)
        as [[a| |] s2]; try discriminate.
      destruct (negb (even_length a)); [discriminate|].
      unfold RT_Map, lift_sum in Hrun.
      destruct (pairs_of a); [|discriminate].
      destruct (distinct_keys l); inversion Hrun; reflexivity.
    + inversion Hrun; reflexivity.
    + inversion Hrun; reflexivity.
    + (* DispatchReader *)
      unfold bind at 1 in Hrun.
      destruct (ReadRune st) as [[[c e]| |] s1]; try discriminate.
      destruct e; [discriminate|].
      destruct (dispatchMacros G c) as [fn|].
      * eapply IH; eassumption.
      * unfold bind at 1 in Hrun.
        destruct (UnreadRune s1) as [[u| |] s2]; try discriminate.
        unfold bind at 1 in Hrun.
        destruct (ensurePending pendingForms s2) as [[p| |] s3]; try discriminate.
        unfold bind at 1 in Hrun.
        destruct (Invoke X G fuel (ctorReader G) c opts p s3) as [[r| |] s4] eqn:Hctor;
          try discriminate.
        destruct (negb (is_nil r)); [|discriminate].
        inversion Hrun; subst. eapply IH; eassumption.
    + (* VarReader *)
      unfold bind at 1 in Hrun.
      destruct (ensurePending pendingForms st) as [[p| |] s1]; try discriminate.
      unfold bind at 1 in Hrun.
      destruct (Read X G fuel true VNil 0 VNil true opts p s1) as [[o| |] s2];
        try discriminate.
      inversion Hrun; reflexivity.
    + (* RegexReader *)
      unfold RegexReader_Invoke, with_input_fuel in Hrun.
      revert Hrun. generalize (S (List.length (input st))) as n.
      generalize (@nil rune) as sb. revert st.
      intros st sb n. revert st sb.
      induction n as [|n IHn]; intros st sb Hrun; [discriminate|].
      cbn [RegexReader_loop] in Hrun. unfold bind at 1 in Hrun.
      destruct (ReadRune st) as [[[c e]| |] s1]; try discriminate.
      destruct (c =? DQUOTE).
      { destruct (regexp_valid X sb); inversion Hrun; reflexivity. }
      destruct e; [discriminate|].
      destruct (c =? R "\").
      * unfold bind at 1 in Hrun.
        destruct (ReadRune s1) as [[[c2 e2]| |] s2]; try discriminate.
        destruct e2; [discriminate|].
        eapply IHn; eassumption.
      * eapply IHn; eassumption.
    + inversion Hrun; reflexivity.
    + inversion Hrun; reflexivity.
    + inversion Hrun; reflexivity.
    + inversion Hrun; reflexivity.
    + (* DiscardReader *)
      unfold bind at 1 in Hrun.
      destruct (ensurePending pendingForms st) as [[p| |] s1]; try discriminate.
      unfold bind at 1 in Hrun.
      destruct (Read X G fuel true VNil 0 VNil true opts p s1) as [[o| |] s2];
        try discriminate.
      inversion Hrun; reflexivity.
    + inversion Hrun; reflexivity.
    + inversion Hrun; reflexivity.
Qed.

Section Stepping.

Variable X : Externals.
Variable G : Globals.

(** When the next rune is a macro trigger, [Read] is the handler: whatever
    the handler returns or throws is the outcome of [Read]. *)
Lemma Read_at_macro fuel eofIsError eofValue returnOn returnOnValue
      isRecursive opts pendingForms c rest last ls re fn :
  is_keyword re UNKNOWN = false ->
  pending_front pendingForms = None ->
  IsSpace c = false ->
  negb (returnOn =? 0) && (returnOn =? c) = false ->
  IsDigit X c = false ->
  macros G c = Some fn ->
  Read X G (S (S fuel)) eofIsError eofValue returnOn returnOnValue
       isRecursive opts pendingForms (mkState (c :: rest) last ls re)
  = Invoke X G fuel fn c opts pendingForms (mkState rest (Some c) ls re).
Proof.
  intros Hre Hpf Hsp Hret Hdig Hmac.
  rewrite Read_S. cbn [READEVAL]. rewrite Hre.
  rewrite Read_loop_S, Hpf.
  unfold bind at 1. cbn [ReadRune input lists READEVAL].
  unfold bind at 1. unfold with_input_fuel. cbn [input].
  cbn [skip_space]. rewrite Hsp. cbn [ret].
  rewrite Hret, Hdig, Hmac.
  unfold bind at 1.
  destruct (Invoke X G fuel fn c opts pendingForms (mkState rest (Some c) ls re))
    as [[v| |] st'] eqn:Hrun; try reflexivity.
  rewrite (Invoke_never_returns_bufio_reader X G _ _ _ _ _ _ _ _ Hrun).
  reflexivity.
Qed.

(** One turn of the loop of [ReadDelimitedList] on a form that is neither
    sentinel, and its last turn on the delimiter sentinel. *)
Lemma ReadDelimitedList_loop_cons fuel a delim isRecursive opts pendingForms
      st form st1 :
  Read X G fuel false (VInt (READ_EOF G)) delim (VInt (READ_FINISHED G))
       isRecursive opts pendingForms st = (Ok form, st1) ->
  is_int form (READ_EOF G) = false ->
  is_int form (READ_FINISHED G) = false ->
  ReadDelimitedList_loop X G (S fuel) a delim isRecursive opts pendingForms st
  = ReadDelimitedList_loop X G fuel (a ++ [form]) delim isRecursive opts
                           pendingForms st1.
Proof.
  intros Hread He Hf. rewrite ReadDelimitedList_loop_S.
  unfold bind at 1. rewrite Hread, He, Hf. reflexivity.
Qed.

Lemma ReadDelimitedList_loop_done fuel a delim isRecursive opts pendingForms
      st form st1 :
  Read X G fuel false (VInt (READ_EOF G)) delim (VInt (READ_FINISHED G))
       isRecursive opts pendingForms st = (Ok form, st1) ->
  is_int form (READ_EOF G) = false ->
  is_int form (READ_FINISHED G) = true ->
  ReadDelimitedList_loop X G (S fuel) a delim isRecursive opts pendingForms st
  = (Ok a, st1).
Proof.
  intros Hread He Hf. rewrite ReadDelimitedList_loop_S.
  unfold bind at 1. rewrite Hread, He, Hf. reflexivity.
Qed.

End Stepping.

(** A comment line read from the top: [Read] hands back the reader, not
    the form that follows the line. *)
Lemma CommentReader_loop_line (text : list rune) :
  forall fuel c rest last ls re,
    Forall (fun x => (x =? 10) = false /\ (x =? 13) = false) text ->
    (c =? 10) || (c =? 13) = true ->
    (List.length text < fuel)%nat ->
    CommentReader_loop fuel (mkState (text ++ c :: rest) last ls re)
    = (Ok VLispReader, mkState rest (Some c) ls re).
Proof.
  induction text as [|x text IH]; intros fuel c rest last ls re Hall Hc Hfuel.
  - destruct fuel as [|fuel]; [simpl in Hfuel; lia|].
    cbn [CommentReader_loop app]. unfold bind at 1.
    cbn [ReadRune input lists READEVAL].
    apply orb_true_iff in Hc. destruct Hc as [Hc|Hc]; rewrite Hc;
      [|rewrite andb_false_r]; reflexivity.
  - destruct fuel as [|fuel]; [simpl in Hfuel; lia|].
    inversion Hall as [|? ? [Hn Hr] Hrest]; subst.
    cbn [CommentReader_loop app]. unfold bind at 1.
    cbn [ReadRune input lists READEVAL].
    rewrite Hn, Hr. cbn [negb andb].
    apply IH; try assumption. simpl in Hfuel; lia.
Qed.

Lemma Read_on_comment_returns_reader
      (X : Externals) (G : Globals) (fuel : nat)
      (eofIsError : bool) (eofValue : Value) (returnOn : rune)
      (returnOnValue : Value) (isRecursive : bool)
      (opts pendingForms : Value) (text : list rune) (c : rune)
      (rest : list rune) (last : option rune) (ls : list (list Value))
      (re : Value) :
  macros G (R ";") = Some CommentReader ->
  is_keyword re UNKNOWN = false ->
  pending_front pendingForms = None ->
  returnOn <> R ";" ->
  Forall (fun x => (x =? 10) = false /\ (x =? 13) = false) text ->
  (c =? 10) || (c =? 13) = true ->
  Read X G (S (S (S fuel))) eofIsError eofValue returnOn returnOnValue
       isRecursive opts pendingForms
       (mkState (R ";" :: text ++ c :: rest) last ls re)
  = (Ok VLispReader, mkState rest (Some c) ls re).
Proof.
  intros Hmac Hre Hpf Hret Htext Hc.
  rewrite (Read_at_macro X G (S fuel) eofIsError eofValue returnOn
             returnOnValue isRecursive opts pendingForms (R ";")
             (text ++ c :: rest) last ls re CommentReader);
    try assumption; try reflexivity.
  - rewrite Invoke_S. unfold CommentReader_Invoke, with_input_fuel.
    cbn [input]. apply CommentReader_loop_line; try assumption.
    rewrite List.length_app. simpl. lia.
  - replace (returnOn =? R ";") with false
      by (symmetry; apply Z.eqb_neq; assumption).
    apply andb_false_r.
Qed.

Lemma odd_length_not_even (a : list Value) :
  Nat.Odd (List.length a) -> negb (even_length a) = true.
Proof.
  intros Hodd. unfold even_length.
  rewrite <- Nat.negb_odd, negb_involutive. apply Nat.odd_spec. exact Hodd.
Qed.

(* ------------------------------------------------------------------ *)
(** ** Comments and discarded forms *)

(** C1 (the code departs from the claim).  For the inputs [#_(1 2) 3] and
    [;c], newline, [ 3], the claim has [Read] return the form [3].  In the
    code the comment and discard readers return [lr], [Read] compares the
    result with [lr.r], the comparison fails, and [Read] returns the reader
    [lr] itself as if it were the form; the [ 3] is left unread. *)
Theorem C1_continue_signal_returned_as_form (X : Externals) (k : nat) :
  read_top X seed1 (20 + k) (reader_on (runes "#_(1 2) 3") VNil)
  = (Ok VLispReader, mkState (runes " 3") (Some (R ")")) [[]] VNil)
  /\
  read_top X seed1 (20 + k) (reader_on (runes ";c" ++ [10] ++ runes " 3") VNil)
  = (Ok VLispReader, mkState (runes " 3") (Some 10) [] VNil).
Proof.
  split; run_read.
Qed.

(* ------------------------------------------------------------------ *)
(** ** Numbers *)

(** What [ReadNumber] parses is the initial rune repeated, once for itself
    and once for every further rune of the token. *)
Lemma ReadNumber_parses_repeated_initch (X : Externals) (G : Globals)
      (initch : rune) (tok : list rune) (c : rune) (rest : list rune)
      (last : option rune) (ls : list (list Value)) (re : Value) :
  Forall (number_rune G) tok ->
  IsSpace c || IsMacro G c = true ->
  ReadNumber X G initch (mkState (tok ++ c :: rest) last ls re)
  = match ParseInt (repeat initch (S (List.length tok))),
          ParseFloat X (repeat initch (S (List.length tok))) with
    | None, None =>
        (Panic (MsgWith "Invalid number: " (repeat initch (S (List.length tok)))),
         mkState (c :: rest) None ls re)
    | None, Some f => (Ok (VFloat f), mkState (c :: rest) None ls re)
    | Some n, _ => (Ok (VInt n), mkState (c :: rest) None ls re)
    end.
Proof.
  intros Htok Hc. unfold ReadNumber, with_input_fuel. unfold bind at 1.
  cbn [input].
  rewrite (ReadNumber_loop_stop G tok);
    try assumption; [|rewrite List.length_app; simpl; lia].
  cbn [app repeat].
  destruct (ParseInt _); [reflexivity|].
  destruct (ParseFloat X _); reflexivity.
Qed.

(** C2 (the code departs from the claim).  The claim has the token [123]
    read as the integer 123 and [0x1F] as 31.  The code appends the initial
    rune at every step, so [123] followed by a space reads as 111 and
    [0x1F] followed by a space as 0. *)
Theorem C2_number_token_accumulates_initial_rune
    (X : Externals) (read_eof read_finished : Z) (k : nat) :
  read_top X (package read_eof read_finished) (20 + k)
           (reader_on (runes "123 ") VNil)
  = (Ok (VInt 111), mkState (runes " ") None [] VNil)
  /\
  read_top X (package read_eof read_finished) (20 + k)
           (reader_on (runes "0x1F ") VNil)
  = (Ok (VInt 0), mkState (runes " ") None [] VNil).
Proof.
  split; run_read.
Qed.

(* ------------------------------------------------------------------ *)
(** ** The read-eval gate *)

(** C3.  Whatever the input (whitespace-only input included), the other
    arguments and the package state, a [Read] entered while [READEVAL] is
    bound to the [unknown] keyword panics at once; the reader's state, and so
    its input, is exactly what it was: no rune has been consumed. *)
Theorem C3_unknown_read_eval_fails_before_reading
    (X : Externals) (G : Globals) (fuel : nat)
    (eofIsError : bool) (eofValue : Value) (returnOn : rune)
    (returnOnValue : Value) (isRecursive : bool)
    (opts pendingForms : Value) (st : State) :
  READEVAL st = VKeyword UNKNOWN ->
  Read X G (S fuel) eofIsError eofValue returnOn returnOnValue isRecursive
       opts pendingForms st
  = (Panic (Msg "Reading disallowed - *read-eval* bound to :unknown"), st).
Proof.
  intros Hunknown. rewrite Read_S, Hunknown. reflexivity.
Qed.

Lemma C3_witness_whitespace_only :
  READEVAL (reader_on (runes "   ") (VKeyword UNKNOWN)) = VKeyword UNKNOWN /\
  read_top plainExternals seed1 1 (reader_on (runes "   ") (VKeyword UNKNOWN))
  = (Panic (Msg "Reading disallowed - *read-eval* bound to :unknown"),
     reader_on (runes "   ") (VKeyword UNKNOWN)).
Proof.
  split; [reflexivity|].
  apply (C3_unknown_read_eval_fails_before_reading
           plainExternals seed1 0 true VNil 0 VNil false VNil VNil
           (reader_on (runes "   ") (VKeyword UNKNOWN))).
  reflexivity.
Defined.

(* ------------------------------------------------------------------ *)
(** ** Pending forms *)

(** C4 (the code departs from the claim).  The claim has a [Read] with a
    non-empty queue return the queue's head and consume nothing.  The queue
    [ensurePending] creates is a [*list.List]; the type switch of [Read] has
    no case for it, so with the queue at address 0 holding [42] and the input
    [7 ] the code reads the [7] from the input and leaves the queue as it
    was.  With a [list.List] held by value the head is returned, and
    nothing is removed: any later [Read] with the same argument returns the
    same head. *)
Theorem C4_pointer_queue_is_ignored
    (X : Externals) (read_eof read_finished : Z) (k : nat) :
  Read X (package read_eof read_finished) (20 + k) true VNil 0 VNil false VNil
       (VListPtr 0) (mkState (runes "7 ") None [[VInt 42]] VNil)
  = (Ok (VInt 7), mkState (runes " ") None [[VInt 42]] VNil)
  /\
  (forall text last ls,
     Read X (package read_eof read_finished) (20 + k) true VNil 0 VNil
          false VNil (VListVal [VInt 42; VInt 43]) (mkState text last ls VNil)
     = (Ok (VInt 42), mkState text last ls VNil)).
Proof.
  split.
  - run_read.
  - intros text last ls. apply Read_more_fuel; [reflexivity | discriminate].
Qed.

(* ------------------------------------------------------------------ *)
(** ** Tokens *)

(** C5 (the code departs from the claim).  The claim has a token that ends
    with the input returned, with nothing pushed back.  In the code the
    final [ReadRune] reports EOF and [ReadToken] calls [UnreadRune] all the
    same; nothing was read that could be unread, [bufio] refuses, and the
    refusal is thrown: no token is returned. *)
Theorem C5_token_ended_by_eof_panics
    (G : Globals) (initch : rune) (tok : list rune)
    (last : option rune) (ls : list (list Value)) (re : Value) :
  Forall (token_rune G) tok ->
  ReadToken G initch (mkState tok last ls re)
  = (Panic (Msg ErrInvalidUnreadRune), mkState [] None ls re).
Proof.
  intros Htok. unfold ReadToken, with_input_fuel. cbn [input].
  apply ReadToken_loop_eof; [assumption | lia].
Qed.

Lemma C5_witness_foo :
  Forall (token_rune seed1) (runes "oo") /\
  ReadToken seed1 (R "f") (mkState (runes "oo") (Some (R "f")) [] VNil)
  = (Panic (Msg ErrInvalidUnreadRune), mkState [] None [] VNil).
Proof.
  assert (H : Forall (token_rune seed1) (runes "oo"))
    by (repeat constructor).
  split; [exact H|].
  exact (C5_token_ended_by_eof_panics seed1 (R "f") (runes "oo")
           (Some (R "f")) [] VNil H).
Defined.

(** The same defect seen from [Read]: the text [foo] with nothing after it
    does not read as the symbol [foo]. *)
Lemma Read_symbol_at_end_of_input_panics (X : Externals) (k : nat) :
  read_top X seed1 (20 + k) (reader_on (runes "foo") VNil)
  = (Panic (Msg ErrInvalidUnreadRune), mkState [] None [] VNil).
Proof.
  run_read.
Qed.

(** A token followed by a rune that ends it is returned, and that rune is
    pushed back. *)
Lemma ReadToken_pushes_back_terminator
      (G : Globals) (initch : rune) (tok : list rune) (c : rune)
      (rest : list rune) (last : option rune) (ls : list (list Value))
      (re : Value) :
  Forall (token_rune G) tok ->
  IsSpace c || IsTerminatingMacro G c = true ->
  ReadToken G initch (mkState (tok ++ c :: rest) last ls re)
  = (Ok (initch :: tok), mkState (c :: rest) None ls re).
Proof.
  intros Htok Hc. unfold ReadToken, with_input_fuel. cbn [input].
  rewrite (ReadToken_loop_stop G tok); try assumption; [reflexivity|].
  rewrite List.length_app. simpl. lia.
Qed.

(* ------------------------------------------------------------------ *)
(** ** Quote and deref *)

(** C6 (the code departs from the claim).  The claim has the ['] and [@]
    handlers return [(quote f)] and [(deref f)].  The wrapping reader of the
    code returns [nil] whatever its symbol, reads nothing and leaves the
    state alone; so ['a] and [@a] read as [nil] with the [a] still in the
    input. *)
Theorem C6_wrapping_reader_returns_nil (X : Externals) (G : Globals) (k : nat) :
  (forall fuel sym ch opts pendingForms st,
     Invoke X G (S fuel) (WrappingReader sym) ch opts pendingForms st
     = (Ok VNil, st))
  /\
  read_top X seed1 (20 + k) (reader_on (runes "'a ") VNil)
  = (Ok VNil, mkState (runes "a ") (Some (R "'")) [] VNil)
  /\
  read_top X seed1 (20 + k) (reader_on (runes "@a ") VNil)
  = (Ok VNil, mkState (runes "a ") (Some (R "@")) [] VNil).
Proof.
  split; [|split].
  - intros. rewrite Invoke_S. reflexivity.
  - run_read.
  - run_read.
Qed.

(* ------------------------------------------------------------------ *)
(** ** String escapes *)

(** C7 (the code departs from the claim).  The claim has the string
    literals with the escapes [\q] and [\u41] fail.  The code keeps an
    escaped rune it does not know as it is, and after [\u] takes the next
    rune as it is: the first literal reads as the string [q], the second as
    the string [41]. *)
Theorem C7_unknown_escapes_are_accepted (X : Externals) (k : nat) :
  read_top X seed1 (20 + k) (reader_on (DQUOTE :: runes "\q" ++ [DQUOTE]) VNil)
  = (Ok (VString (runes "q")), mkState [] (Some DQUOTE) [] VNil)
  /\
  read_top X seed1 (20 + k) (reader_on (DQUOTE :: runes "\u41" ++ [DQUOTE]) VNil)
  = (Ok (VString (runes "41")), mkState [] (Some DQUOTE) [] VNil).
Proof.
  split; run_read.
Qed.

(* ------------------------------------------------------------------ *)
(** ** Map literals *)

(** C8 (the code departs from the claim).  The claim has [{:a 1 :b 2}]
    read as a map with exactly two entries.  The forms of a map literal are
    collected by [ReadDelimitedList], which takes a form equal to a sentinel
    for the end of the list or of the input, and the sentinels are plain
    [int]s drawn by [rand.Int()].  When the delimiter sentinel is 1, the
    collection stops at the form [1]: one form has been collected, and the
    map reader panics with the odd-map-literal message, with [ :b 2}] left
    in the input.  When the end-of-input sentinel is 2, the literal panics
    with "EOF while reading" at the form [2].  The defect is the one of
    C9: a sentinel that is an ordinary integer. *)
Theorem C8_map_literal_meets_sentinel (X : Externals) (k : nat) :
  read_top X (package seed1_EOF 1) (20 + k)
           (reader_on (runes "{:a 1 :b 2}") VNil)
  = (Panic (Msg "Map literal must contain an even number of forms."),
     mkState (runes " :b 2}") None [[]] VNil)
  /\
  read_top X (package 2 seed1_FINISHED) (20 + k)
           (reader_on (runes "{:a 1 :b 2}") VNil)
  = (Panic (Msg "EOF while reading"), mkState (runes "}") None [[]] VNil).
Proof.
  split; run_read.
Qed.

(* ------------------------------------------------------------------ *)
(** ** Sentinels *)

(** C9 (the code departs from the claim).  The claim has every form that
    [Read] produces differ from both sentinels.  The sentinels are plain
    [int]s drawn by [rand.Int()], and an integer literal reads as an [int]:
    when the delimiter sentinel is 7, the literal [7] reads as the sentinel
    itself, and the list [(7 8)] reads as the empty list, with [ 8)] left in
    the input. *)
Theorem C9_integer_literal_equals_sentinel (X : Externals) (k : nat) :
  (forall read_eof,
     read_top X (package read_eof 7) (20 + k) (reader_on (runes "7 ") VNil)
     = (Ok (VInt (READ_FINISHED (package read_eof 7))),
        mkState (runes " ") None [] VNil))
  /\
  read_top X (package seed1_EOF 7) (20 + k) (reader_on (runes "(7 8)") VNil)
  = (Ok EMPTY_PERSISTENT_LIST, mkState (runes " 8)") None [[]] VNil).
Proof.
  split; [intros read_eof|]; run_read.
Qed.

(* ------------------------------------------------------------------ *)
(** ** The dispatch reader at the end of the input *)

(** C10.  When the input ends right after a [#], the dispatch reader panics
    with "EOF while reading character"; so does a [Read] that meets the [#]
    (possibly after whitespace), and the input is then exhausted.  Both
    statements hold for every secondary table [dispatchMacros G] and every
    fallback reader [ctorReader G]: neither is consulted.  The side
    conditions of the second say that [Read] gets as far as the [#]:
    read-eval is not [unknown], no pending form is returned first, [#] is not
    the caller's delimiter, and [#] is bound to the dispatch reader. *)
Theorem C10_dispatch_at_eof (X : Externals) (G : Globals) :
  (forall fuel ch opts pendingForms last ls re,
     Invoke X G (S fuel) DispatchReader ch opts pendingForms
            (mkState [] last ls re)
     = (Panic (Msg "EOF while reading character"), mkState [] None ls re))
  /\
  (forall fuel eofIsError eofValue returnOn returnOnValue isRecursive
          opts pendingForms ws last ls re,
     macros G (R "#") = Some DispatchReader ->
     is_keyword re UNKNOWN = false ->
     pending_front pendingForms = None ->
     returnOn <> R "#" ->
     Forall (fun c => IsSpace c = true) ws ->
     Read X G (S (S (S fuel))) eofIsError eofValue returnOn returnOnValue
          isRecursive opts pendingForms (mkState (ws ++ [R "#"]) last ls re)
     = (Panic (Msg "EOF while reading character"), mkState [] None ls re)).
Proof.
  split.
  - intros. rewrite Invoke_S. reflexivity.
  - intros fuel eofIsError eofValue returnOn returnOnValue isRecursive
           opts pendingForms ws last ls re Hmacro Hre Hpf Hret Hws.
    rewrite Read_S. cbn [READEVAL]. rewrite Hre.
    rewrite Read_loop_S, Hpf.
    assert (Hnext :
      bind ReadRune (fun x => let '(ch, err) := x in
                              with_input_fuel (fun n => skip_space n ch err))
           (mkState (ws ++ [R "#"]) last ls re)
      = (Ok (R "#", false), mkState [] (Some (R "#")) ls re)).
    { destruct ws as [|w ws'].
      - reflexivity.
      - inversion Hws; subst.
        unfold bind at 1. cbn [ReadRune input app lists READEVAL].
        unfold with_input_fuel. cbn [input].
        apply skip_space_stop; try assumption; [reflexivity|].
        rewrite List.length_app. simpl. lia. }
    unfold bind at 1. unfold bind at 1 in Hnext.
    destruct (ReadRune (mkState (ws ++ [R "#"]) last ls re))
      as [[[ch err]| |] st1]; try discriminate Hnext.
    unfold bind at 1. rewrite Hnext.
    replace (returnOn =? R "#") with false
      by (symmetry; apply Z.eqb_neq; assumption).
    rewrite andb_false_r.
    replace (IsDigit X (R "#")) with false by reflexivity.
    rewrite Hmacro.
    rewrite Invoke_S.
    reflexivity.
Qed.

Lemma C10_witness_hash_then_eof :
  read_top plainExternals seed1 3 (reader_on (runes "  #") VNil)
  = (Panic (Msg "EOF while reading character"), mkState [] None [] VNil).
Proof.
  apply (proj2 (C10_dispatch_at_eof plainExternals seed1)
           0%nat true VNil 0 VNil false VNil VNil (runes "  ") None [] VNil).
  - reflexivity.
  - reflexivity.
  - reflexivity.
  - discriminate.
  - repeat constructor.
Defined.

(* ================================================================== *)
(** * Further properties of the reader *)

(* ------------------------------------------------------------------ *)
(** ** Whitespace, end of input and the delimiter in [Read] *)

Section ReadEdges.

Variable X : Externals.
Variable G : Globals.

Lemma skip_space_eof (ws : list rune) :
  forall fuel ch err last ls re,
    IsSpace ch = true ->
    Forall space_rune ws ->
    (List.length ws < fuel)%nat ->
    skip_space fuel ch err (mkState ws last ls re)
    = (Ok (0, true), mkState [] None ls re).
Proof.
  induction ws as [|w ws IH]; intros fuel ch err last ls re Hch Hall Hfuel.
  - destruct fuel as [|fuel]; [simpl in Hfuel; lia|].
    cbn [skip_space]. rewrite Hch. unfold bind.
    cbn [ReadRune input lists READEVAL].
    destruct fuel; reflexivity.
  - destruct fuel as [|fuel]; [simpl in Hfuel; lia|].
    inversion Hall; subst.
    cbn [skip_space]. rewrite Hch. unfold bind at 1.
    cbn [ReadRune input lists READEVAL].
    apply IH; try assumption. simpl in Hfuel; lia.
Qed.

(** The first two statements of the loop of [Read]: the next rune that is
    not a space, or EOF. *)
Lemma first_rune_after_spaces ws c rest last ls re :
  Forall space_rune ws ->
  IsSpace c = false ->
  bind ReadRune (fun x => let '(ch, err) := x in
                          with_input_fuel (fun n => skip_space n ch err))
       (mkState (ws ++ c :: rest) last ls re)
  = (Ok (c, false), mkState rest (Some c) ls re).
Proof.
  intros Hws Hc. destruct ws as [|w ws'].
  - unfold bind. cbn [ReadRune input app lists READEVAL].
    unfold with_input_fuel. cbn [skip_space]. rewrite Hc. reflexivity.
  - inversion Hws; subst.
    unfold bind at 1. cbn [ReadRune input app lists READEVAL].
    unfold with_input_fuel. cbn [input].
    apply skip_space_stop; try assumption.
    rewrite List.length_app. simpl. lia.
Qed.

Lemma eof_after_spaces ws last ls re :
  Forall space_rune ws ->
  bind ReadRune (fun x => let '(ch, err) := x in
                          with_input_fuel (fun n => skip_space n ch err))
       (mkState ws last ls re)
  = (Ok (0, true), mkState [] None ls re).
Proof.
  intros Hws. destruct ws as [|w ws'].
  - reflexivity.
  - inversion Hws; subst.
    unfold bind at 1. cbn [ReadRune input lists READEVAL].
    unfold with_input_fuel. cbn [input].
    apply skip_space_eof; try assumption. lia.
Qed.

(** Rewrites the head of the loop of [Read] by an equation on its first two
    statements. *)
Lemma Read_loop_head fuel eofIsError eofValue returnOn returnOnValue
      isRecursive opts pendingForms st ch err st1 :
  pending_front pendingForms = None ->
  bind ReadRune (fun x => let '(ch, err) := x in
                          with_input_fuel (fun n => skip_space n ch err)) st
  = (Ok (ch, err), st1) ->
  Read_loop X G (S fuel) eofIsError eofValue returnOn returnOnValue
            isRecursive opts pendingForms st
  = (if err then
       if eofIsError then panic (Msg "EOF while reading")
       else ret eofValue
     else if negb (returnOn =? 0) && (returnOn =? ch) then
       ret returnOnValue
     else if IsDigit X ch then ReadNumber X G ch
     else
       match macros G ch with
       | Some macroFn =>
           ret_ <- Invoke X G fuel macroFn ch opts pendingForms ;;
           if is_bufio_reader ret_ then
             Read_loop X G fuel eofIsError eofValue returnOn returnOnValue
                       isRecursive opts pendingForms
           else ret ret_
       | None =>
           if (ch =? R "+") || (ch =? R "-") then
             '(ch2, _) <- ReadRune ;;
             if IsDigit X ch2 then UnreadRune ;; ReadNumber X G ch
             else
               UnreadRune ;;
               token <- ReadToken G ch ;;
               lift_sum (interpretToken X token)
           else
             token <- ReadToken G ch ;;
             lift_sum (interpretToken X token)
       end) st1.
Proof.
  intros Hpf Hhead. rewrite Read_loop_S, Hpf.
  unfold bind at 1. unfold bind at 1 in Hhead.
  destruct (ReadRune st) as [[[c e]| |] s1]; try discriminate Hhead.
  unfold bind at 1. rewrite Hhead. reflexivity.
Qed.

(** Leading whitespace is skipped: a [Read] that gets to the text does
    with it exactly what it does without the whitespace before it. *)
Theorem Read_skips_leading_whitespace
    fuel eofIsError eofValue returnOn returnOnValue isRecursive opts
    pendingForms ws c rest last last' ls re :
  is_keyword re UNKNOWN = false ->
  pending_front pendingForms = None ->
  Forall space_rune ws ->
  IsSpace c = false ->
  Read X G (S (S fuel)) eofIsError eofValue returnOn returnOnValue
       isRecursive opts pendingForms (mkState (ws ++ c :: rest) last ls re)
  = Read X G (S (S fuel)) eofIsError eofValue returnOn returnOnValue
         isRecursive opts pendingForms (mkState (c :: rest) last' ls re).
Proof.
  intros Hre Hpf Hws Hc.
  rewrite !Read_S. cbn [READEVAL]. rewrite Hre.
  rewrite (Read_loop_head fuel _ _ _ _ _ _ _ _ c false
             (mkState rest (Some c) ls re) Hpf
             (first_rune_after_spaces ws c rest last ls re Hws Hc)).
  rewrite (Read_loop_head fuel _ _ _ _ _ _ _ _ c false
             (mkState rest (Some c) ls re) Hpf
             (first_rune_after_spaces [] c rest last' ls re
                (Forall_nil _) Hc)).
  reflexivity.
Qed.

(** At the end of the input, possibly after whitespace, [Read] panics when
    the caller made EOF an error and returns the caller's EOF value
    otherwise; the input is exhausted. *)
Theorem Read_at_end_of_input
    fuel eofIsError eofValue returnOn returnOnValue isRecursive opts
    pendingForms ws last ls re :
  is_keyword re UNKNOWN = false ->
  pending_front pendingForms = None ->
  Forall space_rune ws ->
  Read X G (S (S fuel)) eofIsError eofValue returnOn returnOnValue
       isRecursive opts pendingForms (mkState ws last ls re)
  = (if eofIsError then Panic (Msg "EOF while reading") else Ok eofValue,
     mkState [] None ls re).
Proof.
  intros Hre Hpf Hws. rewrite Read_S. cbn [READEVAL]. rewrite Hre.
  rewrite (Read_loop_head fuel _ _ _ _ _ _ _ _ 0 true
             (mkState [] None ls re) Hpf (eof_after_spaces ws last ls re Hws)).
  destruct eofIsError; reflexivity.
Qed.

(** When the next rune after whitespace is the caller's delimiter, [Read]
    returns the caller's value for it; the delimiter is consumed and the
    text after it is left. *)
Theorem Read_returns_on_delimiter
    fuel eofIsError eofValue returnOn returnOnValue isRecursive opts
    pendingForms ws rest last ls re :
  is_keyword re UNKNOWN = false ->
  pending_front pendingForms = None ->
  returnOn <> 0 ->
  IsSpace returnOn = false ->
  Forall space_rune ws ->
  Read X G (S (S fuel)) eofIsError eofValue returnOn returnOnValue
       isRecursive opts pendingForms
       (mkState (ws ++ returnOn :: rest) last ls re)
  = (Ok returnOnValue, mkState rest (Some returnOn) ls re).
Proof.
  intros Hre Hpf Hnz Hsp Hws. rewrite Read_S. cbn [READEVAL]. rewrite Hre.
  rewrite (Read_loop_head fuel _ _ _ _ _ _ _ _ returnOn false
             (mkState rest (Some returnOn) ls re) Hpf
             (first_rune_after_spaces ws returnOn rest last ls re Hws Hsp)).
  replace (returnOn =? 0) with false by (symmetry; apply Z.eqb_neq; exact Hnz).
  rewrite Z.eqb_refl. reflexivity.
Qed.

(** A delimited list that meets the end of the input before its delimiter
    panics with "EOF while reading", whatever the sentinels are. *)
Theorem ReadDelimitedList_at_end_of_input
    fuel delim isRecursive opts pendingForms ws last ls re :
  is_keyword re UNKNOWN = false ->
  pending_front pendingForms = None ->
  Forall space_rune ws ->
  ReadDelimitedList X G (S (S (S fuel))) delim isRecursive opts pendingForms
                    (mkState ws last ls re)
  = (Panic (Msg "EOF while reading"), mkState [] None ls re).
Proof.
  intros Hre Hpf Hws. unfold ReadDelimitedList.
  rewrite ReadDelimitedList_loop_S. unfold bind at 1.
  rewrite (Read_at_end_of_input fuel false _ _ _ _ _ _ ws last ls re Hre Hpf Hws).
  cbn [is_int]. rewrite Z.eqb_refl. reflexivity.
Qed.

(** A delimited list whose delimiter comes first, possibly after whitespace,
    is empty; the delimiter is consumed. *)
Theorem ReadDelimitedList_empty
    fuel delim isRecursive opts pendingForms ws rest last ls re :
  READ_EOF G <> READ_FINISHED G ->
  is_keyword re UNKNOWN = false ->
  pending_front pendingForms = None ->
  delim <> 0 ->
  IsSpace delim = false ->
  Forall space_rune ws ->
  ReadDelimitedList X G (S (S (S fuel))) delim isRecursive opts pendingForms
                    (mkState (ws ++ delim :: rest) last ls re)
  = (Ok [], mkState rest (Some delim) ls re).
Proof.
  intros Hdiff Hre Hpf Hnz Hsp Hws. unfold ReadDelimitedList.
  apply ReadDelimitedList_loop_done with (form := VInt (READ_FINISHED G)).
  - apply Read_returns_on_delimiter; assumption.
  - apply Z.eqb_neq. congruence.
  - apply Z.eqb_refl.
Qed.

End ReadEdges.

(* ------------------------------------------------------------------ *)
(** ** Empty collection literals *)

(** [()], [[]] and [{}], with any whitespace between the brackets, read as
    the empty list, the empty vector and the empty map, provided the two
    sentinels differ; the closing bracket is consumed and one pending list
    has been allocated. *)
Theorem Read_empty_collections
    (X : Externals) (read_eof read_finished : Z) (k : nat)
    (ws rest : list rune) :
  read_eof <> read_finished ->
  Forall space_rune ws ->
  read_top X (package read_eof read_finished) (6 + k)
           (reader_on (R "(" :: ws ++ R ")" :: rest) VNil)
  = (Ok EMPTY_PERSISTENT_LIST, mkState rest (Some (R ")")) [[]] VNil)
  /\
  read_top X (package read_eof read_finished) (6 + k)
           (reader_on (R "[" :: ws ++ R "]" :: rest) VNil)
  = (Ok (VVector []), mkState rest (Some (R "]")) [[]] VNil)
  /\
  read_top X (package read_eof read_finished) (6 + k)
           (reader_on (R "{" :: ws ++ R "}" :: rest) VNil)
  = (Ok (VMap []), mkState rest (Some (R "}")) [[]] VNil).
Proof.
  intros Hdiff Hws.
  set (G := package read_eof read_finished).
  assert (Hlist' : forall delim lst, delim <> 0 -> IsSpace delim = false ->
            ReadDelimitedList_loop X G (S (S (S k))) [] delim true VNil
              (VListPtr 0) (mkState (ws ++ delim :: rest) lst [[]] VNil)
            = (Ok [], mkState rest (Some delim) [[]] VNil)).
  { intros delim lst Hnz Hsp.
    apply (ReadDelimitedList_empty X G k delim true VNil (VListPtr 0) ws rest);
      try assumption; reflexivity. }
  unfold read_top, reader_on.
  change (6 + k)%nat with (S (S (S (S (S (S k)))))).
  split; [|split].
  - rewrite (Read_at_macro X G (S (S (S (S k)))) true VNil 0 VNil false VNil
               VNil (R "(") _ None [] VNil ListReader); try reflexivity.
    rewrite Invoke_S. unfold bind at 1.
    cbn [ensurePending list_New input lastRune lists READEVAL List.length app].
    unfold bind at 1. rewrite Hlist' by (try discriminate; reflexivity).
    reflexivity.
  - rewrite (Read_at_macro X G (S (S (S (S k)))) true VNil 0 VNil false VNil
               VNil (R "[") _ None [] VNil VectorReader); try reflexivity.
    rewrite Invoke_S. unfold bind at 1.
    cbn [ensurePending list_New input lastRune lists READEVAL List.length app].
    unfold bind at 1. rewrite Hlist' by (try discriminate; reflexivity).
    reflexivity.
  - rewrite (Read_at_macro X G (S (S (S (S k)))) true VNil 0 VNil false VNil
               VNil (R "{") _ None [] VNil MapReader); try reflexivity.
    rewrite Invoke_S. unfold bind at 1.
    cbn [ensurePending list_New input lastRune lists READEVAL List.length app].
    unfold bind at 1. rewrite Hlist' by (try discriminate; reflexivity).
    reflexivity.
Qed.

Lemma Read_empty_collections_witness :
  seed1_EOF <> seed1_FINISHED /\
  Forall space_rune (runes "  ") /\
  read_top plainExternals seed1 6 (reader_on (runes "(  ) x") VNil)
  = (Ok EMPTY_PERSISTENT_LIST, mkState (runes " x") (Some (R ")")) [[]] VNil).
Proof.
  assert (Hd : seed1_EOF <> seed1_FINISHED) by discriminate.
  assert (Hw : Forall space_rune (runes "  ")) by (repeat constructor).
  split; [exact Hd|]. split; [exact Hw|].
  exact (proj1 (Read_empty_collections plainExternals seed1_EOF seed1_FINISHED
                  0 (runes "  ") (runes " x") Hd Hw)).
Defined.

(* ------------------------------------------------------------------ *)
(** ** String and regex literals, comment lines *)

Lemma StringReader_loop_plain (body : list rune) :
  forall fuel sb rest last ls re,
    Forall string_rune body ->
    (List.length body < fuel)%nat ->
    StringReader_loop fuel sb (mkState (body ++ DQUOTE :: rest) last ls re)
    = (Ok (VString (sb ++ body)), mkState rest (Some DQUOTE) ls re).
Proof.
  induction body as [|c body IH]; intros fuel sb rest last ls re Hall Hfuel.
  - destruct fuel as [|fuel]; [simpl in Hfuel; lia|].
    cbn [StringReader_loop app]. unfold bind at 1.
    cbn [ReadRune input lists READEVAL]. rewrite Z.eqb_refl.
    rewrite app_nil_r. reflexivity.
  - destruct fuel as [|fuel]; [simpl in Hfuel; lia|].
    inversion Hall as [|? ? [Hq Hb] Hrest]; subst.
    cbn [StringReader_loop app]. unfold bind at 1.
    cbn [ReadRune input lists READEVAL]. rewrite Hq, Hb.
    rewrite IH; try assumption; [|simpl in Hfuel; lia].
    rewrite <- app_assoc. reflexivity.
Qed.

Lemma StringReader_loop_decodes (text value : list rune) :
  string_text text value ->
  forall fuel sb rest last ls re,
    (List.length text < fuel)%nat ->
    StringReader_loop fuel sb (mkState (text ++ DQUOTE :: rest) last ls re)
    = (Ok (VString (sb ++ value)), mkState rest (Some DQUOTE) ls re).
Proof.
  induction 1 as [|c t v [Hq Hb] Ht IH|e x t v Hin Ht IH];
    intros fuel sb rest last ls re Hfuel.
  - destruct fuel as [|fuel]; [simpl in Hfuel; lia|].
    cbn [StringReader_loop app]. unfold bind at 1.
    cbn [ReadRune input lists READEVAL]. rewrite Z.eqb_refl.
    rewrite app_nil_r. reflexivity.
  - destruct fuel as [|fuel]; [simpl in Hfuel; lia|].
    cbn [StringReader_loop app]. unfold bind at 1.
    cbn [ReadRune input lists READEVAL]. rewrite Hq, Hb.
    rewrite IH; [|simpl in Hfuel; lia].
    rewrite <- app_assoc. reflexivity.
  - destruct fuel as [|fuel]; [simpl in Hfuel; lia|].
    assert (Hstep :
      StringReader_loop (S fuel) sb
        (mkState (R "\" :: e :: t ++ DQUOTE :: rest) last ls re)
      = StringReader_loop fuel (sb ++ [x])
          (mkState (t ++ DQUOTE :: rest) (Some e) ls re)).
    { unfold simple_escapes in Hin. cbn [In] in Hin.
      repeat (destruct Hin as [Hin|Hin];
              [injection Hin as <- <-; reflexivity|]).
      contradiction. }
    cbn [app]. rewrite Hstep.
    rewrite IH; [|simpl in Hfuel; lia].
    rewrite <- app_assoc. reflexivity.
Qed.

(** One turn of the loop on an escape other than [\u]: both runes are
    consumed and one rune is appended, whatever follows. *)
Lemma StringReader_loop_escape (e : rune) :
  (e =? R "u") = false ->
  exists x, forall fuel sb t last ls re,
    StringReader_loop (S fuel) sb (mkState (R "\" :: e :: t) last ls re)
    = StringReader_loop fuel (sb ++ [x]) (mkState t (Some e) ls re).
Proof.
  intros Hu.
  destruct (e =? R "t") eqn:E1;
    [apply Z.eqb_eq in E1; subst e; exists 9; reflexivity|].
  destruct (e =? R "r") eqn:E2;
    [apply Z.eqb_eq in E2; subst e; exists 13; reflexivity|].
  destruct (e =? R "n") eqn:E3;
    [apply Z.eqb_eq in E3; subst e; exists 10; reflexivity|].
  destruct (e =? R "b") eqn:E4;
    [apply Z.eqb_eq in E4; subst e; exists 8; reflexivity|].
  destruct (e =? R "f") eqn:E5;
    [apply Z.eqb_eq in E5; subst e; exists 12; reflexivity|].
  exists e. intros. cbn [StringReader_loop]. unfold bind at 1.
  cbn [ReadRune input lists READEVAL].
  replace (R "\" =? DQUOTE) with false by reflexivity.
  rewrite Z.eqb_refl. unfold bind at 1.
  cbn [ReadRune input lists READEVAL]. rewrite E1, E2, E3, E4, E5, Hu.
  destruct (e =? R "\"); [reflexivity|].
  destruct (e =? DQUOTE); reflexivity.
Qed.

(** One turn of the loop on [\u]: the rune after it is taken as it is. *)
Lemma StringReader_loop_u fuel sb x t last ls re :
  StringReader_loop (S fuel) sb
    (mkState (R "\" :: R "u" :: x :: t) last ls re)
  = StringReader_loop fuel (sb ++ [x]) (mkState t (Some x) ls re).
Proof. reflexivity. Qed.

Lemma StringReader_loop_cut_short (text : list rune) :
  open_string_text text ->
  forall fuel sb last ls re,
    (List.length text < fuel)%nat ->
    StringReader_loop fuel sb (mkState text last ls re)
    = (Panic (Msg "EOF while reading string"), mkState [] None ls re).
Proof.
  induction 1 as [|c t [Hq Hb] Ht IH|e t Hu Ht IH|x t Ht IH| |];
    intros fuel sb last ls re Hfuel.
  - destruct fuel as [|fuel]; [simpl in Hfuel; lia|]. reflexivity.
  - destruct fuel as [|fuel]; [simpl in Hfuel; lia|].
    cbn [StringReader_loop]. unfold bind at 1.
    cbn [ReadRune input lists READEVAL]. rewrite Hq, Hb.
    apply IH. simpl in Hfuel; lia.
  - destruct fuel as [|fuel]; [simpl in Hfuel; lia|].
    destruct (StringReader_loop_escape e Hu) as [x Hstep].
    rewrite Hstep. apply IH. simpl in Hfuel; lia.
  - destruct fuel as [|fuel]; [simpl in Hfuel; lia|].
    rewrite StringReader_loop_u. apply IH. simpl in Hfuel; lia.
  - destruct fuel as [|fuel]; [simpl in Hfuel; lia|]. reflexivity.
  - destruct fuel as [|[|fuel]]; try (simpl in Hfuel; lia). reflexivity.
Qed.

(** Every run of the loop: the text is one that the input ends before a
    closing quote, or the loop returns a string at a quote of the text. *)
Lemma StringReader_loop_outcome : forall fuel text sb last ls re,
  (List.length text < fuel)%nat ->
  open_string_text text \/
  exists body value rest,
    text = body ++ DQUOTE :: rest /\
    StringReader_loop fuel sb (mkState text last ls re)
    = (Ok (VString (sb ++ value)), mkState rest (Some DQUOTE) ls re).
Proof.
  induction fuel as [|fuel IH]; intros text sb last ls re Hfuel;
    [simpl in Hfuel; lia|].
  destruct text as [|c t]; [left; apply open_string_nil|].
  destruct (c =? DQUOTE) eqn:Hq.
  { right. apply Z.eqb_eq in Hq. subst c.
    exists [], [], t. split; [reflexivity|].
    cbn [StringReader_loop]. unfold bind at 1.
    cbn [ReadRune input lists READEVAL]. rewrite Z.eqb_refl.
    rewrite app_nil_r. reflexivity. }
  destruct (c =? R "\") eqn:Hb.
  2:{ destruct (IH t (sb ++ [c]) (Some c) ls re) as [Hopen|[body [v [rest [Ht Hrun]]]]];
        [simpl in Hfuel; lia| |].
      - left. apply open_string_rune; [split|]; assumption.
      - right. exists (c :: body), (c :: v), rest. split; [rewrite Ht; reflexivity|].
        cbn [StringReader_loop]. unfold bind at 1.
        cbn [ReadRune input lists READEVAL]. rewrite Hq, Hb.
        rewrite Hrun, <- app_assoc. reflexivity. }
  apply Z.eqb_eq in Hb. subst c.
  destruct t as [|e t]; [left; apply open_string_cut_escape|].
  destruct (e =? R "u") eqn:Hu.
  - apply Z.eqb_eq in Hu. subst e.
    destruct t as [|x t]; [left; apply open_string_cut_u|].
    destruct (IH t (sb ++ [x]) (Some x) ls re) as [Hopen|[body [v [rest [Ht Hrun]]]]];
      [simpl in Hfuel; lia| |].
    + left. apply open_string_u. assumption.
    + right. exists (R "\" :: R "u" :: x :: body), (x :: v), rest.
      split; [rewrite Ht; reflexivity|].
      rewrite StringReader_loop_u, Hrun, <- app_assoc. reflexivity.
  - destruct (StringReader_loop_escape e Hu) as [x Hstep].
    destruct (IH t (sb ++ [x]) (Some e) ls re) as [Hopen|[body [v [rest [Ht Hrun]]]]];
      [simpl in Hfuel; lia| |].
    + left. apply open_string_escape; assumption.
    + right. exists (R "\" :: e :: body), (x :: v), rest.
      split; [rewrite Ht; reflexivity|].
      rewrite Hstep, Hrun, <- app_assoc. reflexivity.
Qed.

Lemma RegexReader_loop_verbatim (X : Externals) (text : list rune) :
  regex_text text ->
  forall fuel sb rest last ls re,
    (List.length text < fuel)%nat ->
    RegexReader_loop X fuel sb (mkState (text ++ DQUOTE :: rest) last ls re)
    = (if regexp_valid X (sb ++ text) then Ok (VRegex (sb ++ text))
       else Panic (Msg (MustCompile_panic X (sb ++ text))),
       mkState rest (Some DQUOTE) ls re).
Proof.
  induction 1 as [|c t [Hq Hb] Ht IH|x t Ht IH];
    intros fuel sb rest last ls re Hfuel.
  - destruct fuel as [|fuel]; [simpl in Hfuel; lia|].
    cbn [RegexReader_loop app]. unfold bind at 1.
    cbn [ReadRune input lists READEVAL]. rewrite Z.eqb_refl.
    rewrite app_nil_r. destruct (regexp_valid X sb); reflexivity.
  - destruct fuel as [|fuel]; [simpl in Hfuel; lia|].
    cbn [RegexReader_loop app]. unfold bind at 1.
    cbn [ReadRune input lists READEVAL]. rewrite Hq, Hb.
    rewrite IH; [|simpl in Hfuel; lia].
    rewrite <- app_assoc. reflexivity.
  - destruct fuel as [|fuel]; [simpl in Hfuel; lia|].
    cbn [RegexReader_loop app]. unfold bind at 1.
    cbn [ReadRune input lists READEVAL].
    replace (R "\" =? DQUOTE) with false by reflexivity.
    rewrite Z.eqb_refl. unfold bind at 1.
    cbn [ReadRune input lists READEVAL].
    rewrite IH; [|simpl in Hfuel; lia].
    rewrite <- !app_assoc. reflexivity.
Qed.

Lemma RegexReader_loop_cut_short (X : Externals) (text : list rune) :
  open_regex_text text ->
  forall fuel sb last ls re,
    (List.length text < fuel)%nat ->
    RegexReader_loop X fuel sb (mkState text last ls re)
    = (Panic (Msg "EOF while reading regex"), mkState [] None ls re).
Proof.
  induction 1 as [|c t [Hq Hb] Ht IH|x t Ht IH|];
    intros fuel sb last ls re Hfuel.
  - destruct fuel as [|fuel]; [simpl in Hfuel; lia|]. reflexivity.
  - destruct fuel as [|fuel]; [simpl in Hfuel; lia|].
    cbn [RegexReader_loop]. unfold bind at 1.
    cbn [ReadRune input lists READEVAL]. rewrite Hq, Hb.
    apply IH. simpl in Hfuel; lia.
  - destruct fuel as [|fuel]; [simpl in Hfuel; lia|].
    cbn [RegexReader_loop]. unfold bind at 1.
    cbn [ReadRune input lists READEVAL].
    replace (R "\" =? DQUOTE) with false by reflexivity.
    rewrite Z.eqb_refl. unfold bind at 1.
    cbn [ReadRune input lists READEVAL].
    apply IH. simpl in Hfuel; lia.
  - destruct fuel as [|fuel]; [simpl in Hfuel; lia|]. reflexivity.
Qed.

(** Every run of the loop: the text is one that the input ends before a
    closing quote, or the loop stops at a quote of the text, with the
    regex text before it. *)
Lemma RegexReader_loop_outcome (X : Externals) : forall fuel text,
  (List.length text < fuel)%nat ->
  open_regex_text text \/
  exists body rest,
    text = body ++ DQUOTE :: rest /\ regex_text body /\
    forall sb last ls re,
      RegexReader_loop X fuel sb (mkState text last ls re)
      = (if regexp_valid X (sb ++ body) then Ok (VRegex (sb ++ body))
         else Panic (Msg (MustCompile_panic X (sb ++ body))),
         mkState rest (Some DQUOTE) ls re).
Proof.
  induction fuel as [|fuel IH]; intros text Hfuel; [simpl in Hfuel; lia|].
  destruct text as [|c t]; [left; apply open_regex_nil|].
  destruct (c =? DQUOTE) eqn:Hq.
  { right. apply Z.eqb_eq in Hq. subst c.
    exists [], t. split; [reflexivity|]. split; [apply regex_text_nil|].
    intros sb last ls re.
    apply (RegexReader_loop_verbatim X [] regex_text_nil (S fuel) sb t last ls re).
    simpl. lia. }
  destruct (c =? R "\") eqn:Hb.
  2:{ destruct (IH t) as [Hopen|[body [rest [Ht [Hbody Hrun]]]]];
        [simpl in Hfuel; lia| |].
      - left. apply open_regex_rune; [split|]; assumption.
      - right. exists (c :: body), rest. split; [rewrite Ht; reflexivity|].
        split; [apply regex_text_rune; [split|]; assumption|].
        intros sb last ls re.
        cbn [RegexReader_loop]. unfold bind at 1.
        cbn [ReadRune input lists READEVAL]. rewrite Hq, Hb.
        rewrite Hrun, <- app_assoc. reflexivity. }
  apply Z.eqb_eq in Hb. subst c.
  destruct t as [|x t]; [left; apply open_regex_cut_pair|].
  destruct (IH t) as [Hopen|[body [rest [Ht [Hbody Hrun]]]]];
    [simpl in Hfuel; lia| |].
  - left. apply open_regex_pair. assumption.
  - right. exists (R "\" :: x :: body), rest.
    split; [rewrite Ht; reflexivity|].
    split; [apply regex_text_pair; assumption|].
    intros sb last ls re.
    cbn [RegexReader_loop]. unfold bind at 1.
    cbn [ReadRune input lists READEVAL].
    replace (R "\" =? DQUOTE) with false by reflexivity.
    rewrite Z.eqb_refl. unfold bind at 1.
    cbn [ReadRune input lists READEVAL].
    rewrite Hrun, <- !app_assoc. reflexivity.
Qed.

Lemma CommentReader_loop_to_eof (text : list rune) :
  forall fuel last ls re,
    Forall line_rune text ->
    (List.length text < fuel)%nat ->
    CommentReader_loop fuel (mkState text last ls re)
    = (Ok VLispReader, mkState [] None ls re).
Proof.
  induction text as [|x text IH]; intros fuel last ls re Hall Hfuel.
  - destruct fuel as [|fuel]; [simpl in Hfuel; lia|]. reflexivity.
  - destruct fuel as [|fuel]; [simpl in Hfuel; lia|].
    inversion Hall as [|? ? [Hn Hr] Hrest]; subst.
    cbn [CommentReader_loop]. unfold bind at 1.
    cbn [ReadRune input lists READEVAL].
    rewrite Hn, Hr. cbn [negb andb].
    apply IH; [assumption | simpl in Hfuel; lia].
Qed.

Section Literals.

Variable X : Externals.
Variable G : Globals.

(** A string literal without backslashes reads as the text up to its
    closing quote; the quote is consumed and the text after it is left. *)
Theorem StringReader_reads_plain_text
    fuel ch opts pendingForms body rest last ls re :
  Forall string_rune body ->
  Invoke X G (S fuel) StringReader ch opts pendingForms
         (mkState (body ++ DQUOTE :: rest) last ls re)
  = (Ok (VString body), mkState rest (Some DQUOTE) ls re).
Proof.
  intros Hbody. rewrite Invoke_S.
  unfold StringReader_Invoke, with_input_fuel. cbn [input].
  rewrite StringReader_loop_plain; try assumption; [reflexivity|].
  rewrite List.length_app. simpl. lia.
Qed.

(** A string literal that the input ends before a closing quote panics
    with "EOF while reading string", wherever the text is cut: among plain
    runes, after an escape of any kind, after a backslash or after the [u]
    of [\u].  On every other text the reader returns a string at a quote
    of the text: a panic of the string reader always is this one. *)
Theorem StringReader_unterminated
    fuel ch opts pendingForms text last ls re :
  (open_string_text text ->
   Invoke X G (S fuel) StringReader ch opts pendingForms
          (mkState text last ls re)
   = (Panic (Msg "EOF while reading string"), mkState [] None ls re))
  /\
  (~ open_string_text text ->
   exists body value rest,
     text = body ++ DQUOTE :: rest /\
     Invoke X G (S fuel) StringReader ch opts pendingForms
            (mkState text last ls re)
     = (Ok (VString value), mkState rest (Some DQUOTE) ls re)).
Proof.
  rewrite Invoke_S.
  unfold StringReader_Invoke, with_input_fuel. cbn [input].
  split.
  - intros Htext. apply (StringReader_loop_cut_short text Htext). lia.
  - intros Hclosed.
    destruct (StringReader_loop_outcome (S (List.length text)) text []
                last ls re) as [Hopen|[body [value [rest [Ht Hrun]]]]];
      [lia | contradiction |].
    exists body, value, rest. split; [exact Ht | exact Hrun].
Qed.

(** A string literal reads as the string its text stands for, whatever
    the number of simple escapes in it: each of [\t], [\r], [\n], [\b],
    [\f], the escaped backslash and the escaped quote is replaced by its
    rune, and an escaped quote does not close the literal. *)
Theorem StringReader_decodes_simple_escapes
    fuel ch opts pendingForms text value rest last ls re :
  string_text text value ->
  Invoke X G (S fuel) StringReader ch opts pendingForms
         (mkState (text ++ DQUOTE :: rest) last ls re)
  = (Ok (VString value), mkState rest (Some DQUOTE) ls re).
Proof.
  intros Htext. rewrite Invoke_S.
  unfold StringReader_Invoke, with_input_fuel. cbn [input].
  rewrite (StringReader_loop_decodes text value Htext); [reflexivity|].
  rewrite List.length_app. simpl. lia.
Qed.

(** A regex literal reads as the pattern made of its text, verbatim: a
    backslash stays, and so does the rune after it, which never closes the
    literal, a quote included.  (The pattern must compile.) *)
Theorem RegexReader_keeps_text_verbatim
    fuel ch opts pendingForms text rest last ls re :
  regex_text text ->
  regexp_valid X text = true ->
  Invoke X G (S fuel) RegexReader ch opts pendingForms
         (mkState (text ++ DQUOTE :: rest) last ls re)
  = (Ok (VRegex text), mkState rest (Some DQUOTE) ls re).
Proof.
  intros Htext Hvalid. rewrite Invoke_S.
  unfold RegexReader_Invoke, with_input_fuel. cbn [input].
  rewrite (RegexReader_loop_verbatim X text Htext).
  - cbn [app]. rewrite Hvalid. reflexivity.
  - rewrite List.length_app. simpl. lia.
Qed.

(** A regex literal that the input ends before a closing quote panics
    with "EOF while reading regex", wherever the text is cut: among plain
    runes, after a backslash and its rune, or right after a backslash.  On
    every other text the reader stops at a quote of the text and hands the
    regex text before it to [regexp.MustCompile]. *)
Theorem RegexReader_unterminated
    fuel ch opts pendingForms text last ls re :
  (open_regex_text text ->
   Invoke X G (S fuel) RegexReader ch opts pendingForms
          (mkState text last ls re)
   = (Panic (Msg "EOF while reading regex"), mkState [] None ls re))
  /\
  (~ open_regex_text text ->
   exists body rest,
     text = body ++ DQUOTE :: rest /\ regex_text body /\
     Invoke X G (S fuel) RegexReader ch opts pendingForms
            (mkState text last ls re)
     = (if regexp_valid X body then Ok (VRegex body)
        else Panic (Msg (MustCompile_panic X body)),
        mkState rest (Some DQUOTE) ls re)).
Proof.
  rewrite Invoke_S.
  unfold RegexReader_Invoke, with_input_fuel. cbn [input].
  split.
  - intros Htext. apply (RegexReader_loop_cut_short X text Htext). lia.
  - intros Hclosed.
    destruct (RegexReader_loop_outcome X (S (List.length text)) text)
      as [Hopen|[body [rest [Ht [Hbody Hrun]]]]];
      [lia | contradiction |].
    exists body, rest. split; [exact Ht|]. split; [exact Hbody|].
    apply (Hrun [] last ls re).
Qed.

(** The comment reader consumes the line: everything up to and including
    the first newline or carriage return, leaving the text after it; a
    comment that runs to the end of the input consumes all of it. *)
Theorem CommentReader_consumes_the_line
    fuel ch opts pendingForms text last ls re :
  Forall line_rune text ->
  (forall c rest,
     (c =? 10) || (c =? 13) = true ->
     Invoke X G (S fuel) CommentReader ch opts pendingForms
            (mkState (text ++ c :: rest) last ls re)
     = (Ok VLispReader, mkState rest (Some c) ls re))
  /\
  Invoke X G (S fuel) CommentReader ch opts pendingForms
         (mkState text last ls re)
  = (Ok VLispReader, mkState [] None ls re).
Proof.
  intros Htext. split.
  - intros c rest Hc. rewrite Invoke_S.
    unfold CommentReader_Invoke, with_input_fuel. cbn [input].
    apply CommentReader_loop_line; try assumption.
    rewrite List.length_app. simpl. lia.
  - rewrite Invoke_S.
    unfold CommentReader_Invoke, with_input_fuel. cbn [input].
    apply CommentReader_loop_to_eof; [assumption | lia].
Qed.

(** A [#] followed by a rune that the dispatch table does not know: the
    rune is pushed back, a pending list is made if there was none, the
    constructor reader (a stub that returns [nil]) is tried, and the
    dispatch reader panics with "No dispatch macro for: " and the rune. *)
Theorem DispatchReader_unknown_rune
    fuel ch0 opts pendingForms ch rest last ls re :
  ctorReader G = CtorReader ->
  dispatchMacros G ch = None ->
  Invoke X G (S (S fuel)) DispatchReader ch0 opts pendingForms
         (mkState (ch :: rest) last ls re)
  = (Panic (MsgWith "No dispatch macro for: " [ch]),
     mkState (ch :: rest) None
             (if is_nil pendingForms then ls ++ [[]] else ls) re).
Proof.
  intros Hctor Hnone. rewrite Invoke_S.
  unfold bind at 1. cbn [ReadRune input lists READEVAL].
  rewrite Hnone. unfold bind at 1.
  cbn [UnreadRune lastRune input lists READEVAL].
  unfold bind at 1. rewrite Hctor.
  destruct pendingForms; reflexivity.
Qed.

End Literals.

Lemma StringReader_reads_plain_text_witness :
  Forall string_rune (runes "ab c") /\
  Invoke plainExternals seed1 1 StringReader DQUOTE VNil VNil
         (mkState (runes "ab c" ++ DQUOTE :: runes " d") (Some DQUOTE) [] VNil)
  = (Ok (VString (runes "ab c")), mkState (runes " d") (Some DQUOTE) [] VNil).
Proof.
  assert (H : Forall string_rune (runes "ab c")) by (repeat constructor).
  split; [exact H|].
  exact (StringReader_reads_plain_text plainExternals seed1 0 DQUOTE VNil VNil
           (runes "ab c") (runes " d") (Some DQUOTE) [] VNil H).
Defined.

Lemma StringReader_unterminated_witness :
  (* cut right after a backslash, after an escape the switch does not know *)
  Invoke plainExternals seed1 1 StringReader DQUOTE VNil VNil
         (mkState (runes "a\qb\") (Some DQUOTE) [] VNil)
  = (Panic (Msg "EOF while reading string"), mkState [] None [] VNil)
  /\
  (* a quote after a plain rune closes the literal *)
  exists body value rest,
    runes "a" ++ DQUOTE :: runes "b" = body ++ DQUOTE :: rest /\
    Invoke plainExternals seed1 1 StringReader DQUOTE VNil VNil
           (mkState (runes "a" ++ DQUOTE :: runes "b") (Some DQUOTE) [] VNil)
    = (Ok (VString value), mkState rest (Some DQUOTE) [] VNil).
Proof.
  split.
  - apply (proj1 (StringReader_unterminated plainExternals seed1 0 DQUOTE
                    VNil VNil (runes "a\qb\") (Some DQUOTE) [] VNil)).
    apply open_string_rune; [split; reflexivity|].
    apply open_string_escape; [reflexivity|].
    apply open_string_rune; [split; reflexivity|].
    apply open_string_cut_escape.
  - apply (proj2 (StringReader_unterminated plainExternals seed1 0 DQUOTE
                    VNil VNil (runes "a" ++ DQUOTE :: runes "b")
                    (Some DQUOTE) [] VNil)).
    intros Hopen. inversion Hopen as [|c t [Hq Hb] Ht| | | |]; subst.
    inversion Ht as [|c t [Hq' Hb'] Ht'| | | |]; subst.
    discriminate Hq'.
Defined.

Lemma StringReader_decodes_simple_escapes_witness :
  string_text (runes "a" ++ R "\" :: R "n" :: R "\" :: DQUOTE :: runes "b")
              (runes "a" ++ 10 :: DQUOTE :: runes "b") /\
  Invoke plainExternals seed1 1 StringReader DQUOTE VNil VNil
         (mkState ((runes "a" ++ R "\" :: R "n" :: R "\" :: DQUOTE :: runes "b")
                     ++ DQUOTE :: [])
                  (Some DQUOTE) [] VNil)
  = (Ok (VString (runes "a" ++ 10 :: DQUOTE :: runes "b")),
     mkState [] (Some DQUOTE) [] VNil).
Proof.
  assert (H : string_text
                (runes "a" ++ R "\" :: R "n" :: R "\" :: DQUOTE :: runes "b")
                (runes "a" ++ 10 :: DQUOTE :: runes "b")).
  { apply string_text_rune; [split; reflexivity|].
    apply (string_text_escape (R "n") 10);
      [right; right; left; reflexivity|].
    apply (string_text_escape DQUOTE DQUOTE);
      [do 4 right; left; reflexivity|].
    apply string_text_rune; [split; reflexivity|].
    apply string_text_nil. }
  split; [exact H|].
  exact (StringReader_decodes_simple_escapes plainExternals seed1 0 DQUOTE
           VNil VNil _ _ [] (Some DQUOTE) [] VNil H).
Defined.

Lemma RegexReader_keeps_text_verbatim_witness :
  regex_text (runes "a" ++ R "\" :: DQUOTE :: runes "b") /\
  Invoke plainExternals seed1 1 RegexReader DQUOTE VNil VNil
         (mkState ((runes "a" ++ R "\" :: DQUOTE :: runes "b") ++ DQUOTE :: [])
                  (Some DQUOTE) [] VNil)
  = (Ok (VRegex (runes "a" ++ R "\" :: DQUOTE :: runes "b")),
     mkState [] (Some DQUOTE) [] VNil).
Proof.
  assert (H : regex_text (runes "a" ++ R "\" :: DQUOTE :: runes "b")).
  { apply regex_text_rune; [split; reflexivity|].
    apply regex_text_pair.
    apply regex_text_rune; [split; reflexivity|].
    apply regex_text_nil. }
  split; [exact H|].
  exact (RegexReader_keeps_text_verbatim plainExternals seed1 0 DQUOTE
           VNil VNil _ [] (Some DQUOTE) [] VNil H eq_refl).
Defined.

Lemma RegexReader_unterminated_witness :
  (* cut right after a backslash, after an escaped quote *)
  Invoke plainExternals seed1 1 RegexReader DQUOTE VNil VNil
         (mkState (runes "ab" ++ [R "\"; DQUOTE; R "\"]) (Some DQUOTE) [] VNil)
  = (Panic (Msg "EOF while reading regex"), mkState [] None [] VNil)
  /\
  (* a quote after a plain rune closes the literal *)
  exists body rest,
    runes "a" ++ DQUOTE :: runes "b" = body ++ DQUOTE :: rest /\
    regex_text body /\
    Invoke plainExternals seed1 1 RegexReader DQUOTE VNil VNil
           (mkState (runes "a" ++ DQUOTE :: runes "b") (Some DQUOTE) [] VNil)
    = (if regexp_valid plainExternals body then Ok (VRegex body)
       else Panic (Msg (MustCompile_panic plainExternals body)),
       mkState rest (Some DQUOTE) [] VNil).
Proof.
  split.
  - apply (proj1 (RegexReader_unterminated plainExternals seed1 0 DQUOTE
                    VNil VNil (runes "ab" ++ [R "\"; DQUOTE; R "\"])
                    (Some DQUOTE) [] VNil)).
    do 2 (apply open_regex_rune; [split; reflexivity|]).
    apply open_regex_pair. apply open_regex_cut_pair.
  - apply (proj2 (RegexReader_unterminated plainExternals seed1 0 DQUOTE
                    VNil VNil (runes "a" ++ DQUOTE :: runes "b")
                    (Some DQUOTE) [] VNil)).
    intros Hopen. inversion Hopen as [|c t [Hq Hb] Ht| |]; subst.
    inversion Ht as [|c t [Hq' Hb'] Ht'| |]; subst.
    discriminate Hq'.
Defined.

Lemma CommentReader_consumes_the_line_witness :
  Forall line_rune (runes " note") /\
  Invoke plainExternals seed1 1 CommentReader (R ";") VNil VNil
         (mkState (runes " note" ++ 10 :: runes "x") (Some (R ";")) [] VNil)
  = (Ok VLispReader, mkState (runes "x") (Some 10) [] VNil) /\
  Invoke plainExternals seed1 1 CommentReader (R ";") VNil VNil
         (mkState (runes " note") (Some (R ";")) [] VNil)
  = (Ok VLispReader, mkState [] None [] VNil).
Proof.
  assert (H : Forall line_rune (runes " note")) by (repeat constructor).
  split; [exact H|].
  destruct (CommentReader_consumes_the_line plainExternals seed1 0 (R ";")
              VNil VNil (runes " note") (Some (R ";")) [] VNil H)
    as [Hline Heof].
  split; [apply Hline; reflexivity | exact Heof].
Defined.

Lemma DispatchReader_unknown_rune_witness :
  Invoke plainExternals seed1 2 DispatchReader (R "#") VNil VNil
         (mkState (runes "zz") (Some (R "#")) [] VNil)
  = (Panic (MsgWith "No dispatch macro for: " [R "z"]),
     mkState (runes "zz") None [[]] VNil).
Proof.
  apply (DispatchReader_unknown_rune plainExternals seed1 0 (R "#") VNil VNil
           (R "z") (runes "z") (Some (R "#")) [] VNil); reflexivity.
Defined.

(* ------------------------------------------------------------------ *)
(** ** Numbers and tokens *)

Lemma ParseInt_one_digit (d : Z) :
  0 <= d <= 9 -> ParseInt [48 + d] = Some d.
Proof.
  intros Hd.
  assert (Hcases : d = 0 \/ d = 1 \/ d = 2 \/ d = 3 \/ d = 4 \/
                   d = 5 \/ d = 6 \/ d = 7 \/ d = 8 \/ d = 9) by lia.
  repeat (destruct Hcases as [->|Hcases]; [reflexivity|]).
  subst. reflexivity.
Qed.

(** A one-digit number followed by whitespace or a macro trigger reads as
    that digit, and the rune that ended it is pushed back. *)
Theorem ReadNumber_one_digit
    (X : Externals) (G : Globals) (d : Z) (c : rune) (rest : list rune)
    (last : option rune) (ls : list (list Value)) (re : Value) :
  0 <= d <= 9 ->
  IsSpace c || IsMacro G c = true ->
  ReadNumber X G (48 + d) (mkState (c :: rest) last ls re)
  = (Ok (VInt d), mkState (c :: rest) None ls re).
Proof.
  intros Hd Hc.
  pose proof (ReadNumber_parses_repeated_initch X G (48 + d) [] c rest last ls
                re (Forall_nil _) Hc) as Hrun.
  change (repeat (48 + d) (S (List.length (@nil rune)))) with [48 + d] in Hrun.
  rewrite (ParseInt_one_digit d Hd) in Hrun. exact Hrun.
Qed.

Lemma ReadNumber_one_digit_witness :
  ReadNumber plainExternals seed1 (R "7") (mkState (runes ")") (Some (R "7")) [] VNil)
  = (Ok (VInt 7), mkState (runes ")") None [] VNil).
Proof.
  apply (ReadNumber_one_digit plainExternals seed1 7 (R ")") [] (Some (R "7"))
           [] VNil); [lia | reflexivity].
Defined.

(** A number that runs to the end of the input is not read: after the EOF
    there is no rune to unread, and the refusal of [bufio] is thrown. *)
Theorem ReadNumber_at_end_of_input
    (X : Externals) (G : Globals) (initch : rune) (tok : list rune)
    (last : option rune) (ls : list (list Value)) (re : Value) :
  Forall (number_rune G) tok ->
  ReadNumber X G initch (mkState tok last ls re)
  = (Panic (Msg ErrInvalidUnreadRune), mkState [] None ls re).
Proof.
  intros Htok. unfold ReadNumber, with_input_fuel. unfold bind at 1.
  cbn [input]. rewrite (ReadNumber_loop_eof G tok); [reflexivity|assumption|lia].
Qed.

Lemma ReadNumber_at_end_of_input_witness :
  Forall (number_rune seed1) (runes "2") /\
  ReadNumber plainExternals seed1 (R "4") (mkState (runes "2") (Some (R "4")) [] VNil)
  = (Panic (Msg ErrInvalidUnreadRune), mkState [] None [] VNil).
Proof.
  assert (H : Forall (number_rune seed1) (runes "2")) by (repeat constructor).
  split; [exact H|].
  exact (ReadNumber_at_end_of_input plainExternals seed1 (R "4") (runes "2")
           (Some (R "4")) [] VNil H).
Defined.

Lemma ReadNumber_parses_repeated_initch_witness :
  Forall (number_rune seed1) (runes "23") /\
  ReadNumber plainExternals seed1 (R "1")
             (mkState (runes "23" ++ R " " :: []) (Some (R "1")) [] VNil)
  = (Ok (VInt 111), mkState [R " "] None [] VNil).
Proof.
  assert (H : Forall (number_rune seed1) (runes "23")) by (repeat constructor).
  split; [exact H|].
  exact (ReadNumber_parses_repeated_initch plainExternals seed1 (R "1")
           (runes "23") (R " ") [] (Some (R "1")) [] VNil H eq_refl).
Defined.

Lemma ReadToken_pushes_back_terminator_witness :
  Forall (token_rune seed1) (runes "b#") /\
  ReadToken seed1 (R "a") (mkState (runes "b#" ++ R ")" :: runes " c")
                                   (Some (R "a")) [] VNil)
  = (Ok (runes "ab#"), mkState (R ")" :: runes " c") None [] VNil).
Proof.
  assert (H : Forall (token_rune seed1) (runes "b#")) by (repeat constructor).
  split; [exact H|].
  exact (ReadToken_pushes_back_terminator seed1 (R "a") (runes "b#") (R ")")
           (runes " c") (Some (R "a")) [] VNil H eq_refl).
Defined.

(* ------------------------------------------------------------------ *)
(** ** Symbols and keywords *)

Lemma runes_eqb_eq (a : list rune) :
  forall b, runes_eqb a b = true -> a = b.
Proof.
  induction a as [|x a IH]; intros [|y b] H; try discriminate; [reflexivity|].
  cbn [runes_eqb] in H. apply andb_true_iff in H. destruct H as [Hxy Hab].
  apply Z.eqb_eq in Hxy. subst. f_equal. apply IH. exact Hab.
Qed.

Lemma runes_eqb_neq (a b : list rune) : a <> b -> runes_eqb a b = false.
Proof.
  intros Hne. destruct (runes_eqb a b) eqn:E; [|reflexivity].
  exfalso. apply Hne. apply runes_eqb_eq. exact E.
Qed.

(** A token with two colons in a row anywhere after its first rune is an
    invalid token. *)
Theorem interpretToken_rejects_double_colon (X : Externals) (s : list rune) :
  Contains (tl s) (runes "::") = true ->
  interpretToken X s = inr (MsgWith "Invalid token: " s).
Proof.
  intros Hcc. unfold interpretToken.
  destruct (runes_eqb s (runes "nil")) eqn:E1;
    [apply runes_eqb_eq in E1; subst; discriminate Hcc|].
  destruct (runes_eqb s (runes "true")) eqn:E2;
    [apply runes_eqb_eq in E2; subst; discriminate Hcc|].
  destruct (runes_eqb s (runes "false")) eqn:E3;
    [apply runes_eqb_eq in E3; subst; discriminate Hcc|].
  unfold matchSymbol.
  destruct (negb (runes_eqb (FindString symbolPat s) [])); [|reflexivity].
  rewrite Hcc. rewrite !orb_true_r. reflexivity.
Qed.

Lemma interpretToken_rejects_double_colon_witness :
  interpretToken plainExternals (runes "a::b")
  = inr (MsgWith "Invalid token: " (runes "a::b")).
Proof.
  apply (interpretToken_rejects_double_colon plainExternals (runes "a::b")).
  reflexivity.
Defined.

Lemma star_chr_all {A} (p : rune -> bool) (s : list rune)
      (k : list rune -> option A) (r : A) :
  Forall (fun x => p x = true) s -> k [] = Some r -> star_chr p s k = Some r.
Proof.
  intros Hall Hk. induction Hall as [|x s' Hx Hs IH]; [exact Hk|].
  cbn [star_chr]. rewrite Hx, IH. reflexivity.
Qed.

Lemma star_chr_none {A} (p : rune -> bool) (q : rune -> Prop) (s : list rune)
      (k : list rune -> option A) :
  Forall q s ->
  (forall s', Forall q s' -> k s' = None) ->
  star_chr p s k = None.
Proof.
  intros Hall Hk. induction Hall as [|x s' Hx Hs IH]; [apply Hk; constructor|].
  cbn [star_chr]. rewrite IH.
  rewrite (Hk (x :: s')) by (constructor; assumption).
  destruct (p x); reflexivity.
Qed.

Lemma consumed_all (s : list rune) : consumed s [] = s.
Proof. unfold consumed. cbn [List.length]. rewrite Nat.sub_0_r. apply firstn_all. Qed.

Lemma name_match {A} (c : rune) (cs : list rune) (caps : Caps)
      (k : list rune -> Caps -> option A) (r : A) :
  is_ascii_digit c = false ->
  name_rune c -> Forall name_rune cs ->
  k [] ((2%nat, c :: cs) :: caps) = Some r ->
  rmatch (Seq (Opt (Group 1 (Seq (Chr not_slash_digit)
                              (Seq (StarChr re_dot) (Chr (is_rune "/"))))))
           (Group 2 (Alt (Chr (is_rune "/"))
                         (Seq (Chr not_slash_digit) (StarChr not_slash)))))
         (c :: cs) caps k = Some r.
Proof.
  intros Hd [Hsl Hco] Hcs Hk.
  assert (Hnsd : not_slash_digit c = true)
    by (unfold not_slash_digit; rewrite Hsl, Hd; reflexivity).
  assert (Hns : Forall (fun x => (x =? R "/") = false) cs)
    by (eapply Forall_impl; [|exact Hcs]; intros x [H _]; exact H).
  cbn [rmatch]. rewrite Hnsd.
  rewrite (star_chr_none re_dot (fun x => (x =? R "/") = false) cs).
  2: exact Hns.
  2: { intros s' Hs'. destruct Hs' as [|x s'' Hx _]; [reflexivity|].
       unfold is_rune. rewrite Hx. reflexivity. }
  unfold is_rune at 1. rewrite Hsl.
  apply star_chr_all.
  - eapply Forall_impl; [|exact Hns]. intros x Hx. unfold not_slash. rewrite Hx. reflexivity.
  - rewrite consumed_all. exact Hk.
Qed.

Lemma rmatch_Seq {A} r1 r2 s c (k : list rune -> Caps -> option A) :
  rmatch (Seq r1 r2) s c k = rmatch r1 s c (fun s' c' => rmatch r2 s' c' k).
Proof. reflexivity. Qed.

Lemma rmatch_Opt_Chr {A} p x s c (k : list rune -> Caps -> option A) :
  rmatch (Opt (Chr p)) (x :: s) c k
  = if p x then match k s c with Some a => Some a | None => k (x :: s) c end
    else k (x :: s) c.
Proof. cbn [rmatch]. destruct (p x); reflexivity. Qed.

Lemma find_plain_name (c : rune) (cs : list rune) :
  is_ascii_digit c = false ->
  name_rune c -> Forall name_rune cs ->
  find symbolPat (c :: cs) = Some (c :: cs, [(2%nat, c :: cs)]).
Proof.
  intros Hd Hc Hcs.
  cbn [find]. unfold symbolPat. rewrite rmatch_Seq, rmatch_Opt_Chr.
  unfold is_rune at 1. rewrite (proj2 Hc).
  rewrite (name_match c cs [] _ (c :: cs, [(2%nat, c :: cs)]) Hd Hc Hcs);
    [reflexivity|].
  rewrite consumed_all. reflexivity.
Qed.

Lemma find_plain_keyword (c : rune) (cs : list rune) :
  is_ascii_digit c = false ->
  name_rune c -> Forall name_rune cs ->
  find symbolPat (R ":" :: c :: cs) = Some (R ":" :: c :: cs, [(2%nat, c :: cs)]).
Proof.
  intros Hd Hc Hcs.
  cbn [find]. unfold symbolPat. rewrite rmatch_Seq, rmatch_Opt_Chr.
  unfold is_rune at 1. rewrite Z.eqb_refl.
  rewrite (name_match c cs [] _ (R ":" :: c :: cs, [(2%nat, c :: cs)]) Hd Hc Hcs);
    [reflexivity|].
  rewrite consumed_all. reflexivity.
Qed.

Lemma no_colon_suffix (s : list rune) :
  Forall name_rune s -> HasSuffix s (runes ":") = false.
Proof.
  intros Hall. unfold HasSuffix. cbn [runes rev app].
  assert (Hrev : Forall name_rune (rev s)) by (apply Forall_rev; exact Hall).
  destruct Hrev as [|x t [_ Hx] _]; [reflexivity|].
  cbn [HasPrefix]. rewrite Hx. reflexivity.
Qed.

Lemma no_double_colon (s : list rune) :
  Forall name_rune s -> Contains s (runes "::") = false.
Proof.
  intros Hall. cbn [runes].
  induction Hall as [|x t [_ Hx] _ IH]; [reflexivity|].
  cbn [Contains HasPrefix]. rewrite Hx, IH. reflexivity.
Qed.

(** A token made of runes other than [/] and [:], that does not start with
    a digit and is not [nil], [true] or [false], is the symbol of that
    name. *)
Theorem interpretToken_plain_symbol (X : Externals) (c : rune) (cs : list rune) :
  is_ascii_digit c = false ->
  name_rune c -> Forall name_rune cs ->
  c :: cs <> runes "nil" -> c :: cs <> runes "true" -> c :: cs <> runes "false" ->
  interpretToken X (c :: cs) = inl (VSymbol (InternSymbol (c :: cs))).
Proof.
  intros Hd Hc Hcs Hnil Htrue Hfalse. unfold interpretToken.
  rewrite (runes_eqb_neq _ _ Hnil), (runes_eqb_neq _ _ Htrue),
          (runes_eqb_neq _ _ Hfalse).
  unfold matchSymbol, FindString, FindStringSubmatch.
  rewrite (find_plain_name c cs Hd Hc Hcs).
  cbn [runes_eqb negb cap Nat.eqb andb orb tl].
  rewrite (no_colon_suffix (c :: cs)) by (constructor; assumption).
  rewrite (no_double_colon cs Hcs).
  cbn [runes HasPrefix orb]. rewrite (proj2 Hc). reflexivity.
Qed.

(** A colon followed by such a name is the keyword of that name. *)
Theorem interpretToken_plain_keyword (X : Externals) (c : rune) (cs : list rune) :
  is_ascii_digit c = false ->
  name_rune c -> Forall name_rune cs ->
  interpretToken X (R ":" :: c :: cs)
  = inl (VKeyword (InternKeyword (InternSymbol (c :: cs)))).
Proof.
  intros Hd Hc Hcs. unfold interpretToken.
  replace (runes_eqb (R ":" :: c :: cs) (runes "nil")) with false by reflexivity.
  replace (runes_eqb (R ":" :: c :: cs) (runes "true")) with false by reflexivity.
  replace (runes_eqb (R ":" :: c :: cs) (runes "false")) with false by reflexivity.
  unfold matchSymbol, FindString, FindStringSubmatch.
  rewrite (find_plain_keyword c cs Hd Hc Hcs).
  cbn [runes_eqb negb cap Nat.eqb andb orb tl].
  rewrite (no_colon_suffix (c :: cs)) by (constructor; assumption).
  rewrite (no_double_colon (c :: cs)) by (constructor; assumption).
  cbn [runes HasPrefix orb skipn]. rewrite (proj2 Hc).
  rewrite Z.eqb_refl. reflexivity.
Qed.

Lemma interpretToken_plain_symbol_witness :
  interpretToken plainExternals (runes "foo-bar?")
  = inl (VSymbol (InternSymbol (runes "foo-bar?"))).
Proof.
  apply (interpretToken_plain_symbol plainExternals (R "f") (runes "oo-bar?"));
    try reflexivity; try discriminate.
  - split; reflexivity.
  - repeat constructor.
Defined.

Lemma interpretToken_plain_keyword_witness :
  interpretToken plainExternals (runes ":nil")
  = inl (VKeyword (InternKeyword (InternSymbol (runes "nil")))).
Proof.
  apply (interpretToken_plain_keyword plainExternals (R "n") (runes "il"));
    try reflexivity.
  - split; reflexivity.
  - repeat constructor.
Defined.

Lemma IsDigit_ascii (X : Externals) (c : rune) :
  IsDigit X c = false -> is_ascii_digit c = false.
Proof.
  unfold IsDigit, IsDigit_with, is_ascii_digit, MaxLatin1. intros H.
  destruct (c <=? 255) eqn:E; [exact H|].
  apply Z.leb_gt in E.
  destruct (48 <=? c); [|reflexivity].
  cbn [andb]. apply Z.leb_gt. lia.
Qed.

(** [Read] on a plain name followed by whitespace or a terminating macro
    trigger returns the symbol of that name and pushes the terminator back.
    The side conditions say that [Read] reads a token here: the first rune
    is no space, digit, sign, macro trigger or the caller's delimiter, and
    no further rune of the name ends the token. *)
Theorem Read_plain_symbol
    (X : Externals) (G : Globals) (fuel : nat)
    (eofIsError : bool) (eofValue : Value) (returnOn : rune)
    (returnOnValue : Value) (isRecursive : bool) (opts pendingForms : Value)
    (c : rune) (cs : list rune) (t : rune) (rest : list rune)
    (last : option rune) (ls : list (list Value)) (re : Value) :
  is_keyword re UNKNOWN = false ->
  pending_front pendingForms = None ->
  IsSpace c = false ->
  negb (returnOn =? 0) && (returnOn =? c) = false ->
  IsDigit X c = false ->
  macros G c = None ->
  (c =? R "+") || (c =? R "-") = false ->
  Forall (token_rune G) cs ->
  IsSpace t || IsTerminatingMacro G t = true ->
  name_rune c -> Forall name_rune cs ->
  c :: cs <> runes "nil" -> c :: cs <> runes "true" -> c :: cs <> runes "false" ->
  Read X G (S (S fuel)) eofIsError eofValue returnOn returnOnValue
       isRecursive opts pendingForms
       (mkState (c :: cs ++ t :: rest) last ls re)
  = (Ok (VSymbol (InternSymbol (c :: cs))), mkState (t :: rest) None ls re).
Proof.
  intros Hre Hpf Hsp Hret Hdig Hmac Hsign Htok Hterm Hc Hcs Hnil Htrue Hfalse.
  rewrite Read_S. cbn [READEVAL]. rewrite Hre.
  rewrite (Read_loop_head X G fuel _ _ _ _ _ _ _ _ c false
             (mkState (cs ++ t :: rest) (Some c) ls re) Hpf
             (first_rune_after_spaces [] c (cs ++ t :: rest) last ls re
                (Forall_nil _) Hsp)).
  rewrite Hret, Hdig, Hmac, Hsign.
  unfold bind at 1.
  rewrite (ReadToken_pushes_back_terminator G c cs t rest (Some c) ls re Htok Hterm).
  rewrite (interpretToken_plain_symbol X c cs (IsDigit_ascii X c Hdig) Hc Hcs
             Hnil Htrue Hfalse).
  reflexivity.
Qed.

Lemma Read_plain_symbol_witness :
  read_top plainExternals seed1 2 (reader_on (runes "foo)") VNil)
  = (Ok (VSymbol (InternSymbol (runes "foo"))),
     mkState (runes ")") None [] VNil).
Proof.
  apply (Read_plain_symbol plainExternals seed1 0 true VNil 0 VNil false VNil
           VNil (R "f") (runes "oo") (R ")") [] None [] VNil);
    try reflexivity; try discriminate.
  - repeat constructor.
  - split; reflexivity.
  - repeat constructor.
Defined.

(* ------------------------------------------------------------------ *)
(** ** What a read leaves of the reader's state *)

Lemma is_suffix_refl (a : list rune) : is_suffix a a.
Proof. exists []. reflexivity. Qed.

Lemma is_suffix_trans (a b c : list rune) :
  is_suffix a b -> is_suffix b c -> is_suffix a c.
Proof.
  intros [p Hp] [q Hq]. exists (q ++ p). subst. rewrite app_assoc. reflexivity.
Qed.

Lemma is_suffix_cons (x : rune) (a : list rune) : is_suffix a (x :: a).
Proof. exists [x]. reflexivity. Qed.

Lemma advances_refl (st : State) : advances st st.
Proof.
  repeat split; [exists 0%nat; cbn; rewrite app_nil_r; reflexivity
                | apply is_suffix_refl].
Qed.

Lemma advances_trans (a b c : State) :
  advances a b -> advances b c -> advances a c.
Proof.
  intros [Hre1 [[k1 Hl1] Hs1]] [Hre2 [[k2 Hl2] Hs2]]. repeat split.
  - congruence.
  - exists (k1 + k2)%nat. rewrite Hl2, Hl1, repeat_app, app_assoc. reflexivity.
  - eapply is_suffix_trans; eassumption.
Qed.

Lemma keeps_ret {A} (a : A) : keeps (ret a).
Proof. intros st. apply advances_refl. Qed.

Lemma keeps_panic {A} (p : PanicVal) : keeps (@panic A p).
Proof. intros st. apply advances_refl. Qed.

Lemma keeps_out_of_fuel {A} : keeps (@out_of_fuel A).
Proof. intros st. apply advances_refl. Qed.

Lemma keeps_bind {A B} (m : M A) (k : A -> M B) :
  keeps m -> (forall x, keeps (k x)) -> keeps (bind m k).
Proof.
  intros Hm Hk st. unfold bind. specialize (Hm st).
  destruct (m st) as [[a|p|] st1]; cbn [snd] in *; try exact Hm.
  eapply advances_trans; [exact Hm | apply Hk].
Qed.

Lemma keeps_lift_sum (r : Value + PanicVal) : keeps (lift_sum r).
Proof. destruct r; [apply keeps_ret | apply keeps_panic]. Qed.

Lemma keeps_ReadRune : keeps ReadRune.
Proof.
  intros [inp last ls re]. unfold ReadRune. cbn [input lists READEVAL].
  destruct inp as [|ch rest]; cbn [snd]; repeat split;
    try (exists 0%nat; cbn; rewrite app_nil_r; reflexivity);
    unfold unread_view; cbn [lastRune input].
  - exists (match last with Some c => [c] | None => [] end).
    destruct last; reflexivity.
  - destruct last as [c|]; [apply is_suffix_cons | apply is_suffix_refl].
Qed.

Lemma keeps_UnreadRune : keeps UnreadRune.
Proof.
  intros [inp last ls re]. unfold UnreadRune. cbn [lastRune input lists READEVAL].
  destruct last as [c|]; [|apply advances_refl].
  cbn [snd]. repeat split;
    [exists 0%nat; cbn; rewrite app_nil_r; reflexivity | apply is_suffix_refl].
Qed.

Lemma keeps_ensurePending (pendingForms : Value) :
  keeps (ensurePending pendingForms).
Proof.
  assert (Hnew : keeps list_New).
  { intros st. unfold list_New. cbn [snd]. repeat split;
      [exists 1%nat; reflexivity | apply is_suffix_refl]. }
  destruct pendingForms; try apply keeps_ret. exact Hnew.
Qed.

Lemma keeps_with_input_fuel {A} (loop : nat -> M A) :
  (forall n, keeps (loop n)) -> keeps (with_input_fuel loop).
Proof. intros H st. unfold with_input_fuel. apply H. Qed.

(** Closes a goal [keeps m] by following the shape of [m]. *)
Ltac keeps_step :=
  first
    [ apply keeps_ret | apply keeps_panic | apply keeps_out_of_fuel
    | apply keeps_lift_sum | apply keeps_ReadRune | apply keeps_UnreadRune
    | apply keeps_ensurePending
    | assumption
    | apply keeps_bind; [|intro]
    | match goal with
      | |- keeps (let '(_, _) := ?p in _) => destruct p
      | |- keeps (if ?b then _ else _) => destruct b
      | |- keeps (match ?o with Some _ => _ | None => _ end) => destruct o
      | |- keeps (match ?l with [] => _ | _ :: _ => _ end) => destruct l
      end ].

Section Keeps.

Variable X : Externals.
Variable G : Globals.

Lemma keeps_ReadToken (initch : rune) : keeps (ReadToken G initch).
Proof.
  apply keeps_with_input_fuel. intros n. generalize [initch] as b.
  induction n as [|n IH]; intros b; cbn [ReadToken_loop];
    [apply keeps_out_of_fuel|].
  repeat keeps_step; try apply IH.
Qed.

Lemma keeps_ReadNumber (initch : rune) : keeps (ReadNumber X G initch).
Proof.
  unfold ReadNumber. apply keeps_bind.
  - apply keeps_with_input_fuel. intros n. generalize [initch] as sb.
    induction n as [|n IH]; intros sb; cbn [ReadNumber_loop];
      [apply keeps_out_of_fuel|].
    repeat keeps_step; try apply IH.
  - intros s. destruct (ParseInt s); [apply keeps_ret|].
    destruct (ParseFloat X s); [apply keeps_ret | apply keeps_panic].
Qed.

Lemma keeps_StringReader_Invoke : keeps StringReader_Invoke.
Proof.
  apply keeps_with_input_fuel. intros n. generalize (@nil rune) as sb.
  induction n as [|n IH]; intros sb; cbn [StringReader_loop];
    [apply keeps_out_of_fuel|].
  repeat keeps_step; try apply IH.
Qed.

Lemma keeps_RegexReader_Invoke : keeps (RegexReader_Invoke X).
Proof.
  apply keeps_with_input_fuel. intros n. generalize (@nil rune) as sb.
  induction n as [|n IH]; intros sb; cbn [RegexReader_loop];
    [apply keeps_out_of_fuel|].
  repeat keeps_step; try apply IH.
Qed.

Lemma keeps_CommentReader_Invoke : keeps CommentReader_Invoke.
Proof.
  apply keeps_with_input_fuel. intros n.
  induction n as [|n IH]; cbn [CommentReader_loop];
    [apply keeps_out_of_fuel|].
  repeat keeps_step; try apply IH.
Qed.

Lemma keeps_skip_space (n : nat) :
  forall ch err, keeps (skip_space n ch err).
Proof.
  induction n as [|n IH]; intros ch err; cbn [skip_space];
    repeat keeps_step; try apply IH.
Qed.

Lemma keeps_reader (n : nat) :
  (forall eofIsError eofValue returnOn returnOnValue isRecursive opts
          pendingForms,
      keeps (Read X G n eofIsError eofValue returnOn returnOnValue
                  isRecursive opts pendingForms)) /\
  (forall eofIsError eofValue returnOn returnOnValue isRecursive opts
          pendingForms,
      keeps (Read_loop X G n eofIsError eofValue returnOn returnOnValue
                       isRecursive opts pendingForms)) /\
  (forall a delim isRecursive opts pendingForms,
      keeps (ReadDelimitedList_loop X G n a delim isRecursive opts
                                    pendingForms)) /\
  (forall fn ch opts pendingForms,
      keeps (Invoke X G n fn ch opts pendingForms)).
Proof.
  induction n as [|n [IHread [IHloop [IHlist IHinv]]]].
  - repeat split; intros; apply keeps_out_of_fuel.
  - split; [|split; [|split]].
    + intros eofIsError eofValue returnOn returnOnValue isRecursive opts
             pendingForms st. rewrite Read_S.
      destruct (is_keyword (READEVAL st) UNKNOWN);
        [apply advances_refl | apply IHloop].
    + intros eofIsError eofValue returnOn returnOnValue isRecursive opts
             pendingForms. rewrite Read_loop_S.
      repeat first
        [ apply IHinv | apply IHloop | apply keeps_ReadNumber
        | apply keeps_ReadToken
        | apply keeps_with_input_fuel; intro; apply keeps_skip_space
        | keeps_step ].
    + intros a delim isRecursive opts pendingForms.
      rewrite ReadDelimitedList_loop_S.
      repeat first [ apply IHread | apply IHlist | keeps_step ].
    + intros fn ch opts pendingForms. rewrite Invoke_S.
      destruct fn;
        repeat first
          [ apply IHread | apply IHlist | apply IHinv
          | apply keeps_StringReader_Invoke | apply keeps_RegexReader_Invoke
          | apply keeps_CommentReader_Invoke | keeps_step ].
Qed.

End Keeps.

(** Whatever it reads and however it ends, a [Read] leaves the binding of
    read-eval as it was and the pending lists that existed as they were;
    the lists it creates itself are empty at the end: the reader never puts
    a form on a pending list. *)
Theorem Read_keeps_READEVAL_and_pending_lists
    (X : Externals) (G : Globals) (fuel : nat)
    (eofIsError : bool) (eofValue : Value) (returnOn : rune)
    (returnOnValue : Value) (isRecursive : bool)
    (opts pendingForms : Value) (st : State) :
  let st' := snd (Read X G fuel eofIsError eofValue returnOn returnOnValue
                       isRecursive opts pendingForms st) in
  READEVAL st' = READEVAL st /\
  exists k, lists st' = lists st ++ repeat [] k.
Proof.
  destruct (keeps_reader X G fuel) as [Hread _].
  destruct (Hread eofIsError eofValue returnOn returnOnValue isRecursive opts
              pendingForms st) as [Hre [Hls _]].
  split; assumption.
Qed.

(** A [Read] on a fresh reader only moves forward in the text: what is left
    of the input afterwards, however the read ends, is a suffix of what
    there was. *)
Theorem Read_leaves_a_suffix_of_the_input
    (X : Externals) (G : Globals) (fuel : nat)
    (eofIsError : bool) (eofValue : Value) (returnOn : rune)
    (returnOnValue : Value) (isRecursive : bool)
    (opts pendingForms : Value) (text : list rune)
    (ls : list (list Value)) (re : Value) :
  is_suffix
    (input (snd (Read X G fuel eofIsError eofValue returnOn returnOnValue
                      isRecursive opts pendingForms (mkState text None ls re))))
    text.
Proof.
  destruct (keeps_reader X G fuel) as [Hread _].
  destruct (Hread eofIsError eofValue returnOn returnOnValue isRecursive opts
              pendingForms (mkState text None ls re)) as [_ [_ Hsuf]].
  unfold unread_view in Hsuf. cbn [lastRune input] in Hsuf.
  eapply is_suffix_trans; [|exact Hsuf].
  destruct (lastRune _); [apply is_suffix_cons | apply is_suffix_refl].
Qed.

(* ------------------------------------------------------------------ *)
(** ** Reading a finite text ends *)

Lemma run_ok_bind {A B} (m : M A) (k : A -> M B) (st : State)
      (Q1 : A -> State -> Prop) (Q2 : B -> State -> Prop) :
  run_ok (m st) Q1 ->
  (forall a st1, Q1 a st1 -> run_ok (k a st1) Q2) ->
  run_ok (bind m k st) Q2.
Proof.
  intros Hm Hk. unfold bind. destruct (m st) as [[a|p|] st1]; cbn in *;
    [apply Hk; exact Hm | exact I | exact Hm].
Qed.

Lemma run_ok_weaken {A} (res : Res A * State) (Q Q' : A -> State -> Prop) :
  run_ok res Q -> (forall a st, Q a st -> Q' a st) -> run_ok res Q'.
Proof.
  destruct res as [[a|p|] st]; cbn; intros H HQ; [apply HQ; exact H|exact I|exact H].
Qed.

Lemma ReadRune_within (st : State) (n : nat) :
  (remaining st <= n)%nat ->
  run_ok (ReadRune st)
         (fun p st' => (remaining st' <= n)%nat /\
                       if snd p then lastRune st' = None
                       else (remaining st' + 1 <= n)%nat).
Proof.
  destruct st as [[|c rest] last ls re]; unfold remaining; cbn; intros H.
  - split; [lia|reflexivity].
  - split; lia.
Qed.

Lemma UnreadRune_within (st : State) (n : nat) :
  lastRune st = None \/ (remaining st + 1 <= n)%nat ->
  run_ok (UnreadRune st) (fun _ st' => (remaining st' <= n)%nat).
Proof.
  destruct st as [inp [c|] ls re]; unfold remaining; cbn; intros H; [|exact I].
  destruct H as [H|H]; [discriminate|lia].
Qed.

Lemma ensurePending_within (pendingForms : Value) (st : State) :
  pending_front pendingForms = None ->
  run_ok (ensurePending pendingForms st)
         (fun p st' => pending_front p = None /\ remaining st' = remaining st).
Proof.
  intros H. destruct pendingForms; cbn; split; try exact H; reflexivity.
Qed.

Section Within.
Variable X : Externals.
Variable G : Globals.

Lemma ReadToken_loop_within : forall fuel b st n,
  (remaining st < fuel)%nat -> (remaining st <= n)%nat ->
  run_ok (ReadToken_loop G fuel b st) (fun _ st' => (remaining st' <= n)%nat).
Proof.
  induction fuel as [|fuel IH]; intros b [inp last ls re] n Hf Hn;
    unfold remaining in *; cbn [input] in *; [lia|].
  cbn [ReadToken_loop]. unfold bind at 1.
  destruct inp as [|c rest]; cbn [ReadRune input lists READEVAL].
  - cbn. exact I.
  - cbn [orb]. destruct (IsSpace c || IsTerminatingMacro G c).
    + cbn. cbn in Hn. lia.
    + apply IH; unfold remaining; cbn in *; lia.
Qed.

Lemma ReadNumber_within initch st n :
  (remaining st <= n)%nat ->
  run_ok (ReadNumber X G initch st) (fun _ st' => (remaining st' <= n)%nat).
Proof.
  intros Hn. unfold ReadNumber.
  apply run_ok_bind with (Q1 := fun _ st' => (remaining st' <= n)%nat).
  - unfold with_input_fuel. generalize [initch] as sb.
    assert (Hf : (remaining st < S (List.length (input st)))%nat)
      by (unfold remaining; lia).
    revert Hf Hn. generalize (S (List.length (input st))) as fuel. revert st.
    intros st fuel. revert st.
    induction fuel as [|fuel IH]; intros [inp last ls re] Hf Hn sb;
      unfold remaining in *; cbn [input] in *; [lia|].
    cbn [ReadNumber_loop]. unfold bind at 1.
    destruct inp as [|c rest]; cbn [ReadRune input lists READEVAL].
    + cbn. exact I.
    + cbn [orb]. destruct (IsSpace c || IsMacro G c).
      * cbn. cbn in Hn. lia.
      * apply IH; unfold remaining; cbn in *; lia.
  - intros s st1 H1. destruct (ParseInt s); [exact H1|].
    destruct (ParseFloat X s); [exact H1|exact I].
Qed.

Lemma ReadToken_within initch st n :
  (remaining st <= n)%nat ->
  run_ok (ReadToken G initch st) (fun _ st' => (remaining st' <= n)%nat).
Proof.
  intros Hn. unfold ReadToken, with_input_fuel.
  apply ReadToken_loop_within; [unfold remaining; lia | exact Hn].
Qed.

Lemma skip_space_within : forall fuel ch err st n,
  (remaining st < fuel)%nat ->
  (remaining st <= n)%nat ->
  (err = false -> (remaining st + 1 <= n)%nat) ->
  run_ok (skip_space fuel ch err st)
         (fun p st' => (remaining st' <= n)%nat /\
                       (snd p = false -> (remaining st' + 1 <= n)%nat)).
Proof.
  induction fuel as [|fuel IH]; intros ch err [inp last ls re] n Hf Hn He;
    unfold remaining in *; cbn [input] in *; [lia|].
  cbn [skip_space]. destruct (IsSpace ch); [|cbn; split; assumption].
  unfold bind at 1.
  destruct inp as [|c rest]; cbn [ReadRune input lists READEVAL].
  - destruct fuel; cbn [skip_space]; replace (IsSpace 0) with false by reflexivity;
      cbn; (split; [lia|discriminate]).
  - destruct fuel as [|fuel']; [cbn in Hf; lia|].
    apply IH; unfold remaining; cbn in *; lia.
Qed.

Lemma StringReader_Invoke_within st n :
  (remaining st <= n)%nat ->
  run_ok (StringReader_Invoke st) (fun _ st' => (remaining st' <= n)%nat).
Proof.
  intros Hn. unfold StringReader_Invoke, with_input_fuel.
  generalize (@nil rune) as sb.
  assert (Hf : (remaining st < S (List.length (input st)))%nat)
    by (unfold remaining; lia).
  revert Hf Hn. generalize (S (List.length (input st))) as fuel. revert st.
  intros st fuel. revert st.
  induction fuel as [|fuel IH]; intros [inp last ls re] Hf Hn sb;
    unfold remaining in *; cbn [input] in *; [lia|].
  cbn [StringReader_loop]. unfold bind at 1.
  destruct inp as [|c rest]; cbn [ReadRune input lists READEVAL].
  - replace (0 =? DQUOTE) with false by reflexivity. cbn. exact I.
  - destruct (c =? DQUOTE); [cbn; cbn in Hn; lia|].
    destruct (c =? R "\"); [|apply IH; unfold remaining; cbn in *; lia].
    unfold bind at 1.
    destruct rest as [|c2 rest2]; cbn [ReadRune input lists READEVAL];
      [cbn; exact I|].
    repeat match goal with
           | |- context [if ?t then _ else _] => destruct t
           end;
      try (unfold bind at 1; cbn [ret]; apply IH; unfold remaining; cbn in *; lia).
    unfold bind at 1. unfold bind at 1.
    destruct rest2 as [|c3 rest3]; cbn [ReadRune input lists READEVAL ret];
      apply IH; unfold remaining; cbn in *; lia.
Qed.

Lemma RegexReader_Invoke_within st n :
  (remaining st <= n)%nat ->
  run_ok (RegexReader_Invoke X st) (fun _ st' => (remaining st' <= n)%nat).
Proof.
  intros Hn. unfold RegexReader_Invoke, with_input_fuel.
  generalize (@nil rune) as sb.
  assert (Hf : (remaining st < S (List.length (input st)))%nat)
    by (unfold remaining; lia).
  revert Hf Hn. generalize (S (List.length (input st))) as fuel. revert st.
  intros st fuel. revert st.
  induction fuel as [|fuel IH]; intros [inp last ls re] Hf Hn sb;
    unfold remaining in *; cbn [input] in *; [lia|].
  cbn [RegexReader_loop]. unfold bind at 1.
  destruct inp as [|c rest]; cbn [ReadRune input lists READEVAL].
  - replace (0 =? DQUOTE) with false by reflexivity. cbn. exact I.
  - destruct (c =? DQUOTE);
      [destruct (regexp_valid X sb); cbn; cbn in Hn; try exact I; lia|].
    destruct (c =? R "\"); [|apply IH; unfold remaining; cbn in *; lia].
    unfold bind at 1.
    destruct rest as [|c2 rest2]; cbn [ReadRune input lists READEVAL];
      [cbn; exact I|].
    apply IH; unfold remaining; cbn in *; lia.
Qed.

Lemma CommentReader_Invoke_within st n :
  (remaining st <= n)%nat ->
  run_ok (CommentReader_Invoke st) (fun _ st' => (remaining st' <= n)%nat).
Proof.
  intros Hn. unfold CommentReader_Invoke, with_input_fuel.
  assert (Hf : (remaining st < S (List.length (input st)))%nat)
    by (unfold remaining; lia).
  revert Hf Hn. generalize (S (List.length (input st))) as fuel. revert st.
  intros st fuel. revert st.
  induction fuel as [|fuel IH]; intros [inp last ls re] Hf Hn;
    unfold remaining in *; cbn [input] in *; [lia|].
  cbn [CommentReader_loop]. unfold bind at 1.
  destruct inp as [|c rest]; cbn [ReadRune input lists READEVAL].
  - rewrite andb_false_r. cbn. lia.
  - destruct (negb (c =? 10) && negb (c =? 13) && negb false).
    + apply IH; unfold remaining; cbn in *; lia.
    + cbn. cbn in Hn. lia.
Qed.

(** The constructor reader is the stub of the source. *)
Hypothesis Hctor : ctorReader G = CtorReader.

(** With [4n + 4] units of fuel for [n] remaining runes (one less for the
    loop of [Read], one and two more for the loop of [ReadDelimitedList] and
    for [Invoke]) no run is cut short, and a run that returns a value leaves
    at most [n] runes: fewer, for [Read], unless the value is the caller's
    EOF value. *)
Lemma reader_within (f : nat) :
  (forall n eofIsError eofValue returnOn returnOnValue isRecursive opts
          pendingForms st,
      (4 * n + 4 <= f)%nat -> pending_front pendingForms = None ->
      (remaining st <= n)%nat ->
      run_ok (Read X G f eofIsError eofValue returnOn returnOnValue
                   isRecursive opts pendingForms st)
             (fun v st' => (remaining st' <= n)%nat /\
                           ((remaining st' + 1 <= n)%nat \/ v = eofValue))) /\
  (forall n eofIsError eofValue returnOn returnOnValue isRecursive opts
          pendingForms st,
      (4 * n + 3 <= f)%nat -> pending_front pendingForms = None ->
      (remaining st <= n)%nat ->
      run_ok (Read_loop X G f eofIsError eofValue returnOn returnOnValue
                        isRecursive opts pendingForms st)
             (fun v st' => (remaining st' <= n)%nat /\
                           ((remaining st' + 1 <= n)%nat \/ v = eofValue))) /\
  (forall n a delim isRecursive opts pendingForms st,
      (4 * n + 5 <= f)%nat -> pending_front pendingForms = None ->
      (remaining st <= n)%nat ->
      run_ok (ReadDelimitedList_loop X G f a delim isRecursive opts
                                     pendingForms st)
             (fun _ st' => (remaining st' <= n)%nat)) /\
  (forall n fn ch opts pendingForms st,
      (4 * n + 6 <= f)%nat -> pending_front pendingForms = None ->
      (remaining st <= n)%nat ->
      run_ok (Invoke X G f fn ch opts pendingForms st)
             (fun _ st' => (remaining st' <= n)%nat)).
Proof.
  induction f as [|f [IHread [IHloop [IHlist IHinv]]]].
  - repeat split; intros; lia.
  - split; [|split; [|split]].
    + (* Read *)
      intros n eofIsError eofValue returnOn returnOnValue isRecursive opts
             pendingForms st Hf Hpf Hn.
      rewrite Read_S. destruct (is_keyword (READEVAL st) UNKNOWN); [exact I|].
      apply IHloop; [lia | assumption | assumption].
    + (* the loop of Read *)
      intros n eofIsError eofValue returnOn returnOnValue isRecursive opts
             pendingForms st Hf Hpf Hn.
      rewrite Read_loop_S, Hpf.
      eapply run_ok_bind; [apply ReadRune_within; exact Hn|].
      intros [ch err] st1 [H1 H1']. cbn [snd] in H1'.
      eapply run_ok_bind.
      { unfold with_input_fuel.
        apply (skip_space_within _ ch err st1 n);
          [unfold remaining; lia | exact H1|].
        intros ->. exact H1'. }
      intros [ch2 err2] st2 [H2 H2']. cbn [snd] in H2'.
      destruct err2.
      { destruct eofIsError; [exact I|]. split; [exact H2 | right; reflexivity]. }
      specialize (H2' eq_refl). destruct n as [|m]; [lia|].
      assert (Hm : (remaining st2 <= m)%nat) by lia.
      destruct (negb (returnOn =? 0) && (returnOn =? ch2));
        [split; [lia | left; lia]|].
      destruct (IsDigit X ch2).
      { eapply run_ok_weaken; [apply (ReadNumber_within ch2 st2 m Hm)|].
        intros v st3 H3. cbn beta in H3. split; [lia | left; lia]. }
      destruct (macros G ch2) as [macroFn|].
      { eapply run_ok_bind; [apply (IHinv m); [lia | assumption | exact Hm]|].
        intros v st3 H3. cbn beta in H3.
        destruct (is_bufio_reader v); [|split; [lia | left; lia]].
        eapply run_ok_weaken;
          [apply (IHloop m); [lia | assumption | exact H3]|].
        intros v' st4 [H4 _]. split; [lia | left; lia]. }
      assert (Htoken : forall st3, (remaining st3 <= m)%nat ->
                run_ok (bind (ReadToken G ch2)
                             (fun token => lift_sum (interpretToken X token)) st3)
                       (fun v st' => (remaining st' <= S m)%nat /\
                                     ((remaining st' + 1 <= S m)%nat \/ v = eofValue))).
      { intros st3 H3.
        eapply run_ok_bind; [apply (ReadToken_within ch2 st3 m H3)|].
        intros token st4 H4. cbn beta in H4.
        destruct (interpretToken X token); [|exact I].
        split; [lia | left; lia]. }
      destruct ((ch2 =? R "+") || (ch2 =? R "-")); [|apply Htoken; exact Hm].
      eapply run_ok_bind; [apply (ReadRune_within st2 m Hm)|].
      intros [ch3 err3] st3 [H3 H3']. cbn [snd] in H3'.
      assert (Hunread : run_ok (UnreadRune st3)
                               (fun _ st' => (remaining st' <= m)%nat)).
      { apply UnreadRune_within. destruct err3; [left | right]; exact H3'. }
      destruct (IsDigit X ch3).
      * eapply run_ok_bind; [exact Hunread|].
        intros u st4 H4. cbn beta in H4.
        eapply run_ok_weaken; [apply (ReadNumber_within ch2 st4 m H4)|].
        intros v st5 H5. cbn beta in H5. split; [lia | left; lia].
      * eapply run_ok_bind; [exact Hunread|].
        intros u st4 H4. cbn beta in H4. apply Htoken. exact H4.
    + (* the loop of ReadDelimitedList *)
      intros n a delim isRecursive opts pendingForms st Hf Hpf Hn.
      rewrite ReadDelimitedList_loop_S.
      eapply run_ok_bind; [apply (IHread n); [lia | assumption | exact Hn]|].
      intros form st1 [H1 H1'].
      destruct (is_int form (READ_EOF G)) eqn:Eeof; [exact I|].
      destruct (is_int form (READ_FINISHED G)); [exact H1|].
      destruct H1' as [H1'|H1'];
        [|subst form; cbn [is_int] in Eeof; rewrite Z.eqb_refl in Eeof;
          discriminate].
      destruct n as [|m]; [lia|].
      eapply run_ok_weaken;
        [apply (IHlist m); [lia | assumption | lia]|].
      intros l st2 H2. cbn beta in H2. lia.
    + (* Invoke *)
      intros n fn ch opts pendingForms st Hf Hpf Hn.
      rewrite Invoke_S.
      assert (Hlist : forall delim (k : list Value -> M Value),
                (forall l st', run_ok (k l st')
                                 (fun _ st'' => remaining st'' = remaining st')) ->
                run_ok (bind (ensurePending pendingForms)
                          (fun pending =>
                             bind (ReadDelimitedList_loop X G f [] delim true
                                     opts pending) k) st)
                       (fun _ st' => (remaining st' <= n)%nat)).
      { intros delim k Hk.
        eapply run_ok_bind; [apply (ensurePending_within _ st Hpf)|].
        intros p st1 [Hp Hr].
        eapply run_ok_bind;
          [apply (IHlist n); [lia | exact Hp | lia]|].
        intros l st2 H2. cbn beta in H2.
        eapply run_ok_weaken; [apply Hk|].
        intros v st3 H3. cbn beta in H3. lia. }
      assert (Hread : forall (k : Value -> M Value),
                (forall o st', run_ok (k o st')
                                 (fun _ st'' => remaining st'' = remaining st')) ->
                run_ok (bind (ensurePending pendingForms)
                          (fun pending =>
                             bind (Read X G f true VNil 0 VNil true opts pending)
                                  k) st)
                       (fun _ st' => (remaining st' <= n)%nat)).
      { intros k Hk.
        eapply run_ok_bind; [apply (ensurePending_within _ st Hpf)|].
        intros p st1 [Hp Hr].
        eapply run_ok_bind;
          [apply (IHread n); [lia | exact Hp | lia]|].
        intros o st2 [H2 _].
        eapply run_ok_weaken; [apply Hk|].
        intros v st3 H3. cbn beta in H3. lia. }
      destruct fn; try exact Hn.
      * apply StringReader_Invoke_within. exact Hn.
      * apply CommentReader_Invoke_within. exact Hn.
      * apply Hlist. intros [|x l] st'; reflexivity.
      * apply Hlist. intros l st'. reflexivity.
      * apply Hlist. intros l st'.
        destruct (negb (even_length l)); [exact I|].
        destruct (RT_Map l); [reflexivity | exact I].
      * (* DispatchReader *)
        eapply run_ok_bind; [apply (ReadRune_within st n Hn)|].
        intros [c e] st1 [H1 H1']. cbn [snd] in H1'.
        destruct e; [exact I|].
        destruct n as [|m]; [lia|].
        destruct (dispatchMacros G c) as [fn|].
        { eapply run_ok_weaken;
            [apply (IHinv m); [lia | assumption | lia]|].
          intros v st2 H2. cbn beta in H2. lia. }
        eapply run_ok_bind;
          [apply (UnreadRune_within st1 (S m)); right; exact H1'|].
        intros u st2 H2. cbn beta in H2.
        eapply run_ok_bind; [apply (ensurePending_within _ st2 Hpf)|].
        intros p st3 [Hp Hr].
        rewrite Hctor. destruct f as [|f']; [lia|].
        rewrite Invoke_S. exact I.
      * apply Hread. intros o st'. reflexivity.
      * apply RegexReader_Invoke_within. exact Hn.
      * apply Hread. intros o st'. reflexivity.
Qed.
End Within.

(** On a finite text [Read] ends: with a value or with a panic, on four
    units of fuel for each remaining rune and four more.  This holds when no
    form is pending by value (see the next theorem but one) and the
    constructor reader is the stub of the source. *)
Theorem Read_ends
    (X : Externals) (G : Globals) (fuel : nat)
    (eofIsError : bool) (eofValue : Value) (returnOn : rune)
    (returnOnValue : Value) (isRecursive : bool)
    (opts pendingForms : Value) (st : State) :
  ctorReader G = CtorReader ->
  pending_front pendingForms = None ->
  (fuel_for (remaining st) <= fuel)%nat ->
  fst (Read X G fuel eofIsError eofValue returnOn returnOnValue isRecursive
            opts pendingForms st) <> OutOfFuel.
Proof.
  intros Hctor Hpf Hfuel.
  destruct (reader_within X G Hctor fuel) as [Hread _].
  specialize (Hread (remaining st) eofIsError eofValue returnOn returnOnValue
                    isRecursive opts pendingForms st Hfuel Hpf (le_n _)).
  destruct (Read X G fuel eofIsError eofValue returnOn returnOnValue
                 isRecursive opts pendingForms st) as [[v|p|] st'];
    cbn in *; [discriminate | discriminate | contradiction].
Qed.

Lemma Read_ends_witness :
  fst (read_top plainExternals seed1 (fuel_for 9)
                (reader_on (runes "[1 (2 3)]") VNil)) <> OutOfFuel.
Proof.
  apply (Read_ends plainExternals seed1 (fuel_for 9) true VNil 0 VNil false
           VNil VNil (reader_on (runes "[1 (2 3)]") VNil)).
  - reflexivity.
  - reflexivity.
  - apply le_n.
Defined.

(** A [Read] that returns a form has consumed at least one rune, unless
    what it returns is the caller's EOF value: a caller that reads form
    after form from a finite text cannot loop for ever. *)
Theorem Read_makes_progress
    (X : Externals) (G : Globals) (fuel : nat)
    (eofIsError : bool) (eofValue : Value) (returnOn : rune)
    (returnOnValue : Value) (isRecursive : bool)
    (opts pendingForms : Value) (st : State) (v : Value) (st' : State) :
  ctorReader G = CtorReader ->
  pending_front pendingForms = None ->
  Read X G fuel eofIsError eofValue returnOn returnOnValue isRecursive
       opts pendingForms st = (Ok v, st') ->
  (remaining st' < remaining st)%nat \/ v = eofValue.
Proof.
  intros Hctor Hpf Hrun.
  pose proof (Read_more_fuel X G fuel (fuel_for (remaining st)) _ _ _ _ _ _ _
                _ _ _ Hrun ltac:(discriminate)) as Hmore.
  destruct (reader_within X G Hctor (fuel + fuel_for (remaining st)))
    as [Hread _].
  specialize (Hread (remaining st) eofIsError eofValue returnOn returnOnValue
                    isRecursive opts pendingForms st
                    ltac:(unfold fuel_for; lia) Hpf (le_n _)).
  rewrite Hmore in Hread. cbn in Hread.
  destruct Hread as [_ [H|H]]; [left; lia | right; exact H].
Qed.

Lemma Read_makes_progress_witness :
  (remaining (mkState (runes " b") None [] VNil)
   < remaining (reader_on (runes "a b") VNil))%nat \/
  VSymbol (InternSymbol (runes "a")) = VNil.
Proof.
  apply (Read_makes_progress plainExternals seed1 2 true VNil 0 VNil false
           VNil VNil (reader_on (runes "a b") VNil)
           (VSymbol (InternSymbol (runes "a")))
           (mkState (runes " b") None [] VNil)).
  - reflexivity.
  - reflexivity.
  - vm_compute. reflexivity.
Defined.

(** A delimited list over a finite text ends as well, under the same
    conditions. *)
Theorem ReadDelimitedList_ends
    (X : Externals) (G : Globals) (fuel : nat) (delim : rune)
    (isRecursive : bool) (opts pendingForms : Value) (st : State) :
  ctorReader G = CtorReader ->
  pending_front pendingForms = None ->
  (fuel_for (remaining st) + 1 <= fuel)%nat ->
  fst (ReadDelimitedList X G fuel delim isRecursive opts pendingForms st)
  <> OutOfFuel.
Proof.
  intros Hctor Hpf Hfuel.
  destruct (reader_within X G Hctor fuel) as [_ [_ [Hlist _]]].
  specialize (Hlist (remaining st) [] delim isRecursive opts pendingForms st
                    ltac:(unfold fuel_for in Hfuel; lia) Hpf (le_n _)).
  unfold ReadDelimitedList.
  destruct (ReadDelimitedList_loop X G fuel [] delim isRecursive opts
              pendingForms st) as [[v|p|] st'];
    cbn in *; [discriminate | discriminate | contradiction].
Qed.

Lemma ReadDelimitedList_ends_witness :
  fst (ReadDelimitedList plainExternals seed1 (fuel_for 5 + 1) (R ")") true
         VNil VNil (reader_on (runes "a b)") VNil)) <> OutOfFuel.
Proof.
  apply (ReadDelimitedList_ends plainExternals seed1 (fuel_for 5 + 1) (R ")")
           true VNil VNil (reader_on (runes "a b)") VNil)).
  - reflexivity.
  - reflexivity.
  - vm_compute. lia.
Defined.

(** With a non-empty [list.List] passed by value as the pending forms,
    whose head is not a sentinel, [ReadDelimitedList] never returns: each
    [Read] hands back the head, which stays at the head, and the loop appends
    it again.  No amount of fuel ends the run, and the reader's state does
    not move. *)
Theorem ReadDelimitedList_loops_on_pending_value
    (X : Externals) (G : Globals) (fuel : nat) (delim : rune)
    (isRecursive : bool) (opts front : Value) (queue : list Value)
    (st : State) :
  is_keyword (READEVAL st) UNKNOWN = false ->
  is_int front (READ_EOF G) = false ->
  is_int front (READ_FINISHED G) = false ->
  ReadDelimitedList X G fuel delim isRecursive opts
                    (VListVal (front :: queue)) st
  = (OutOfFuel, st).
Proof.
  intros Hre He Hf. unfold ReadDelimitedList. generalize (@nil Value) as a.
  induction fuel as [|fuel IH]; intros a; [reflexivity|].
  rewrite ReadDelimitedList_loop_S. unfold bind at 1.
  destruct fuel as [|[|fuel]]; try reflexivity.
  - rewrite Read_S, Hre. reflexivity.
  - rewrite Read_S, Hre, Read_loop_S. cbn [pending_front ret].
    rewrite He, Hf. apply IH.
Qed.

Lemma ReadDelimitedList_loops_on_pending_value_witness :
  ReadDelimitedList plainExternals seed1 1000 (R ")") true VNil
                    (VListVal [VInt 42]) (reader_on (runes ")") VNil)
  = (OutOfFuel, reader_on (runes ")") VNil).
Proof.
  apply (ReadDelimitedList_loops_on_pending_value plainExternals seed1 1000
           (R ")") true VNil (VInt 42) [] (reader_on (runes ")") VNil));
    reflexivity.
Defined.

(* ------------------------------------------------------------------ *)
(** ** Lists and vectors of numbers *)

Section Digits.
Variable X : Externals.
Variables read_eof read_finished : Z.
Let G := package read_eof read_finished.

(** The sentinels differ from each other and from the ten digits. *)
Hypothesis Hdiff : read_eof <> read_finished.
Hypothesis Heof : ~ 0 <= read_eof <= 9.
Hypothesis Hfin : ~ 0 <= read_finished <= 9.

Lemma digit_rune_facts (d : Z) :
  0 <= d <= 9 ->
  IsSpace (48 + d) = false /\ IsDigit X (48 + d) = true /\
  forall delim, closing_bracket delim -> (delim =? 48 + d) = false.
Proof.
  intros Hd.
  assert (Hcases : d = 0 \/ d = 1 \/ d = 2 \/ d = 3 \/ d = 4 \/
                   d = 5 \/ d = 6 \/ d = 7 \/ d = 8 \/ d = 9) by lia.
  repeat (destruct Hcases as [->|Hcases];
          [repeat split; try reflexivity;
           intros delim [->|[->| ->]]; reflexivity|]).
  subst. repeat split; try reflexivity.
  intros delim [->|[->| ->]]; reflexivity.
Qed.

Lemma Read_digit_item fuel delim ws d c rest last ls :
  closing_bracket delim ->
  Forall space_rune ws ->
  0 <= d <= 9 ->
  IsSpace c || IsMacro G c = true ->
  Read X G (S (S fuel)) false (VInt read_eof) delim (VInt read_finished) true
       VNil (VListPtr 0) (mkState (ws ++ (48 + d) :: c :: rest) last ls VNil)
  = (Ok (VInt d), mkState (c :: rest) None ls VNil).
Proof.
  intros Hdelim Hws Hd Hc.
  destruct (digit_rune_facts d Hd) as [Hsp [Hdig Hp]].
  rewrite Read_S. cbn [READEVAL is_keyword].
  refine (eq_trans (Read_loop_head X G fuel false (VInt read_eof) delim
             (VInt read_finished) true VNil (VListPtr 0) _ (48 + d) false
             (mkState (c :: rest) (Some (48 + d)) ls VNil) eq_refl
             (first_rune_after_spaces ws (48 + d) (c :: rest) last ls VNil Hws Hsp)) _).
  rewrite (Hp delim Hdelim).
  rewrite andb_false_r, Hdig.
  apply ReadNumber_one_digit; assumption.
Qed.

Lemma digit_items_head (ds : list Z) (close : rune) (rest : list rune) :
  IsMacro G close = true ->
  exists c r, digit_items ds ++ close :: rest = c :: r /\
              IsSpace c || IsMacro G c = true.
Proof.
  intros Hclose. destruct ds as [|d ds].
  - exists close, rest. split; [reflexivity|]. rewrite Hclose. apply orb_true_r.
  - exists (R " "), ((48 + d) :: digit_items ds ++ close :: rest).
    split; reflexivity.
Qed.

Lemma ReadDelimitedList_loop_digits (ds : list Z) :
  forall k a delim rest last ls,
    closing_bracket delim ->
    Forall (fun d => 0 <= d <= 9) ds ->
    ReadDelimitedList_loop X G (List.length ds + 3 + k) a delim true VNil
      (VListPtr 0) (mkState (digit_items ds ++ delim :: rest) last ls VNil)
    = (Ok (a ++ map VInt ds), mkState rest (Some delim) ls VNil).
Proof.
  induction ds as [|d ds IH]; intros k a delim rest last ls Hdelim Hds.
  - cbn [List.length digit_items flat_map app map Nat.add].
    rewrite app_nil_r.
    apply ReadDelimitedList_loop_done with (form := VInt (READ_FINISHED G)).
    + apply (Read_returns_on_delimiter X G k false _ delim _ true VNil
               (VListPtr 0) [] rest last ls VNil); try reflexivity;
        try constructor; destruct Hdelim as [->|[->| ->]];
        try discriminate; reflexivity.
    + apply Z.eqb_neq. cbn. congruence.
    + apply Z.eqb_refl.
  - inversion Hds as [|? ? Hd Hds']; subst.
    assert (Hclose : IsMacro G delim = true)
      by (destruct Hdelim as [->|[->| ->]]; reflexivity).
    destruct (digit_items_head ds delim rest Hclose) as [c [r [Hhead Hc]]].
    cbn [List.length Nat.add].
    rewrite (ReadDelimitedList_loop_cons X G (List.length ds + 3 + k) a delim
               true VNil (VListPtr 0) _ (VInt d)
               (mkState (digit_items ds ++ delim :: rest) None ls VNil)).
    + rewrite IH by assumption. rewrite <- app_assoc. reflexivity.
    + assert (Hin : digit_items (d :: ds) ++ delim :: rest
                    = [R " "] ++ (48 + d) :: c :: r)
        by (rewrite <- Hhead; unfold digit_items; cbn [flat_map];
            rewrite <- app_assoc; reflexivity).
      rewrite Hin, Hhead.
      replace (List.length ds + 3 + k)%nat with (S (S (List.length ds + 1 + k)))
        by lia.
      apply (Read_digit_item _ delim [R " "] d c r last ls); try assumption.
      repeat constructor.
    + apply Z.eqb_neq. cbn. intros E. apply Heof. rewrite <- E. exact Hd.
    + apply Z.eqb_neq. cbn. intros E. apply Hfin. rewrite <- E. exact Hd.
Qed.


(** A list or vector literal of one-digit numbers separated by single
    spaces reads as the list or vector of these numbers, in the order of the
    text, whatever their number; the closing bracket is consumed.  The
    sentinels must differ from each other and from the ten digits. *)
Theorem Read_digits_in_order (k : nat) (d : Z) (ds : list Z) (rest : list rune) :
  0 <= d <= 9 ->
  Forall (fun d => 0 <= d <= 9) ds ->
  read_top X G (List.length ds + 7 + k)
           (reader_on (R "(" :: (48 + d) :: digit_items ds ++ R ")" :: rest) VNil)
  = (Ok (VList (VInt d :: map VInt ds)), mkState rest (Some (R ")")) [[]] VNil)
  /\
  read_top X G (List.length ds + 7 + k)
           (reader_on (R "[" :: (48 + d) :: digit_items ds ++ R "]" :: rest) VNil)
  = (Ok (VVector (VInt d :: map VInt ds)), mkState rest (Some (R "]")) [[]] VNil).
Proof.
  intros Hd Hds.
  assert (Hitems : forall delim open,
            closing_bracket delim ->
            ReadDelimitedList_loop X G (S (List.length ds + 3 + k)) [] delim
              true VNil (VListPtr 0)
              (mkState ((48 + d) :: digit_items ds ++ delim :: rest)
                       (Some open) [[]] VNil)
            = (Ok (VInt d :: map VInt ds),
               mkState rest (Some delim) [[]] VNil)).
  { intros delim open Hdelim.
    assert (Hclose : IsMacro G delim = true)
      by (destruct Hdelim as [->|[->| ->]]; reflexivity).
    destruct (digit_items_head ds delim rest Hclose) as [c [r [Hhead Hc]]].
    rewrite (ReadDelimitedList_loop_cons X G (List.length ds + 3 + k) [] delim
               true VNil (VListPtr 0) _ (VInt d)
               (mkState (digit_items ds ++ delim :: rest) None [[]] VNil)).
    - apply ReadDelimitedList_loop_digits; assumption.
    - rewrite Hhead.
      replace (List.length ds + 3 + k)%nat with (S (S (List.length ds + 1 + k)))
        by lia.
      apply (Read_digit_item _ delim [] d c r (Some open) [[]]);
        try assumption. constructor.
    - apply Z.eqb_neq. cbn. intros E. apply Heof. rewrite <- E. exact Hd.
    - apply Z.eqb_neq. cbn. intros E. apply Hfin. rewrite <- E. exact Hd. }
  unfold read_top, reader_on.
  replace (List.length ds + 7 + k)%nat
    with (S (S (S (S (List.length ds + 3 + k))))) by lia.
  split.
  - rewrite (Read_at_macro X G _ true VNil 0 VNil false VNil VNil (R "(") _
               None [] VNil ListReader); try reflexivity.
    rewrite Invoke_S. unfold bind at 1.
    cbn [ensurePending list_New input lastRune lists READEVAL List.length app].
    unfold bind at 1. rewrite Hitems by (left; reflexivity). reflexivity.
  - rewrite (Read_at_macro X G _ true VNil 0 VNil false VNil VNil (R "[") _
               None [] VNil VectorReader); try reflexivity.
    rewrite Invoke_S. unfold bind at 1.
    cbn [ensurePending list_New input lastRune lists READEVAL List.length app].
    unfold bind at 1. rewrite Hitems by (right; left; reflexivity). reflexivity.
Qed.

(** A map literal of one-digit numbers, each preceded by a space, whatever
    their number.  The forms are collected in the order of the text.  If
    their number is odd the map reader panics with the odd-map-literal
    message.  If the forms are those of [n] entries, keys and values in
    turn, they are handed flat to [RT.Map], which pairs them up again: the
    literal reads as the map of these [n] entries when the keys are
    distinct, and fails on a duplicate key otherwise.  The closing brace is
    consumed in each case.  The sentinels must differ from each other and
    from the ten digits. *)
Theorem Read_map_of_digits (k : nat) (rest : list rune) :
  (forall ns : list Z,
     Forall (fun d => 0 <= d <= 9) ns ->
     Nat.Odd (List.length ns) ->
     read_top X G (List.length ns + 7 + k)
              (reader_on (R "{" :: digit_items ns ++ R "}" :: rest) VNil)
     = (Panic (Msg "Map literal must contain an even number of forms."),
        mkState rest (Some (R "}")) [[]] VNil))
  /\
  (forall es : list (Z * Z),
     Forall (fun e => 0 <= fst e <= 9 /\ 0 <= snd e <= 9) es ->
     let entries := map (fun e => (VInt (fst e), VInt (snd e))) es in
     let ns := flat_map (fun e => [fst e; snd e]) es in
     read_top X G (List.length ns + 7 + k)
              (reader_on (R "{" :: digit_items ns ++ R "}" :: rest) VNil)
     = (if distinct_keys entries then Ok (VMap entries)
        else Panic (Msg "duplicate-set-or-map-entry"),
        mkState rest (Some (R "}")) [[]] VNil)).
Proof.
  assert (Hrun : forall ns : list Z,
            Forall (fun d => 0 <= d <= 9) ns ->
            read_top X G (List.length ns + 7 + k)
                     (reader_on (R "{" :: digit_items ns ++ R "}" :: rest) VNil)
            = (if negb (even_length (map VInt ns))
               then panic (Msg "Map literal must contain an even number of forms.")
               else lift_sum (RT_Map (map VInt ns)))
                (mkState rest (Some (R "}")) [[]] VNil)).
  { intros ns Hns. unfold read_top, reader_on.
    replace (List.length ns + 7 + k)%nat
      with (S (S (S (List.length ns + 3 + S k)))) by lia.
    rewrite (Read_at_macro X G _ true VNil 0 VNil false VNil VNil (R "{") _
               None [] VNil MapReader); try reflexivity.
    rewrite Invoke_S. unfold bind at 1.
    cbn [ensurePending list_New input lastRune lists READEVAL List.length app].
    unfold bind at 1.
    rewrite (ReadDelimitedList_loop_digits ns (S k) [] (R "}") rest
               (Some (R "{")) [[]]); try assumption;
      [|right; right; reflexivity].
    cbn [app]. reflexivity. }
  split.
  - intros ns Hns Hodd. rewrite (Hrun ns Hns).
    rewrite odd_length_not_even; [reflexivity|].
    rewrite List.length_map. exact Hodd.
  - intros es Hes. cbv zeta.
    assert (Hns : Forall (fun d => 0 <= d <= 9)
                         (flat_map (fun e : Z * Z => [fst e; snd e]) es)).
    { induction Hes as [|[a b] es' [Ha Hb] Hes' IH]; cbn [flat_map app fst snd].
      - constructor.
      - constructor; [exact Ha|]. constructor; [exact Hb | exact IH]. }
    assert (Hflat : map VInt (flat_map (fun e : Z * Z => [fst e; snd e]) es)
                    = flat_entries
                        (map (fun e : Z * Z => (VInt (fst e), VInt (snd e))) es)).
    { clear. unfold flat_entries.
      induction es as [|[a b] es IH]; [reflexivity|].
      cbn [flat_map map List.concat app fst snd]. rewrite IH. reflexivity. }
    assert (Hpairs : forall entries,
              pairs_of (flat_entries entries) = Some entries).
    { clear. induction entries as [|[a b] ps IH]; [reflexivity|].
      unfold flat_entries in *. cbn [map List.concat app fst snd pairs_of].
      rewrite IH. reflexivity. }
    assert (Heven : forall entries,
              negb (even_length (flat_entries entries)) = false).
    { clear. unfold even_length.
      induction entries as [|[a b] ps IH]; [reflexivity|].
      unfold flat_entries in *. cbn [map List.concat app fst snd List.length].
      exact IH. }
    rewrite (Hrun _ Hns), Hflat, Heven.
    unfold RT_Map. rewrite Hpairs.
    destruct (distinct_keys _); reflexivity.
Qed.

End Digits.

Lemma Read_digits_in_order_witness :
  read_top plainExternals seed1 9
           (reader_on (runes "(1 2 3) x") VNil)
  = (Ok (VList [VInt 1; VInt 2; VInt 3]),
     mkState (runes " x") (Some (R ")")) [[]] VNil).
Proof.
  refine (proj1 (Read_digits_in_order plainExternals seed1_EOF seed1_FINISHED
                   _ _ _ 0 1 [2; 3] (runes " x") _ _)).
  - discriminate.
  - unfold seed1_EOF. lia.
  - unfold seed1_FINISHED. lia.
  - lia.
  - repeat constructor; lia.
Defined.

Lemma Read_map_of_digits_witness :
  (* three forms *)
  read_top plainExternals seed1 10
           (reader_on (runes "{ 1 2 3} x") VNil)
  = (Panic (Msg "Map literal must contain an even number of forms."),
     mkState (runes " x") (Some (R "}")) [[]] VNil)
  /\
  (* two entries with distinct keys *)
  read_top plainExternals seed1 11
           (reader_on (runes "{ 1 2 3 4} x") VNil)
  = (Ok (VMap [(VInt 1, VInt 2); (VInt 3, VInt 4)]),
     mkState (runes " x") (Some (R "}")) [[]] VNil)
  /\
  (* two entries with the same key *)
  read_top plainExternals seed1 11
           (reader_on (runes "{ 1 2 1 4} x") VNil)
  = (Panic (Msg "duplicate-set-or-map-entry"),
     mkState (runes " x") (Some (R "}")) [[]] VNil).
Proof.
  assert (Hdiff : seed1_EOF <> seed1_FINISHED) by discriminate.
  assert (Heof : ~ 0 <= seed1_EOF <= 9) by (unfold seed1_EOF; lia).
  assert (Hfin : ~ 0 <= seed1_FINISHED <= 9) by (unfold seed1_FINISHED; lia).
  destruct (Read_map_of_digits plainExternals seed1_EOF seed1_FINISHED
              Hdiff Heof Hfin 0 (runes " x")) as [Hodd Heven].
  split; [|split].
  - apply (Hodd [1; 2; 3]).
    + repeat constructor; lia.
    + exists 1%nat. reflexivity.
  - apply (Heven [(1, 2); (3, 4)]).
    repeat constructor; cbn; lia.
  - apply (Heven [(1, 2); (1, 4)]).
    repeat constructor; cbn; lia.
Defined.

(* ------------------------------------------------------------------ *)
(** ** Instances of the statements on whitespace, EOF and delimiters *)

Lemma Read_skips_leading_whitespace_witness :
  read_top plainExternals seed1 2 (mkState (runes "  " ++ R "a" :: runes " ") None [] VNil)
  = read_top plainExternals seed1 2 (mkState (R "a" :: runes " ") None [] VNil).
Proof.
  apply (Read_skips_leading_whitespace plainExternals seed1 0 true VNil 0 VNil
           false VNil VNil (runes "  ") (R "a") (runes " ") None None [] VNil);
    try reflexivity.
  repeat constructor.
Defined.

Lemma Read_at_end_of_input_witness :
  Read plainExternals seed1 2 false (VInt 0) 0 VNil false VNil VNil
       (reader_on (runes "  ") VNil)
  = (Ok (VInt 0), mkState [] None [] VNil).
Proof.
  apply (Read_at_end_of_input plainExternals seed1 0 false (VInt 0) 0 VNil
           false VNil VNil (runes "  ") None [] VNil); try reflexivity.
  repeat constructor.
Defined.

Lemma Read_returns_on_delimiter_witness :
  Read plainExternals seed1 2 true VNil (R ")") (VInt 1) false VNil VNil
       (reader_on (runes " ) x") VNil)
  = (Ok (VInt 1), mkState (runes " x") (Some (R ")")) [] VNil).
Proof.
  apply (Read_returns_on_delimiter plainExternals seed1 0 true VNil (R ")")
           (VInt 1) false VNil VNil (runes " ") (runes " x") None [] VNil);
    try reflexivity; try discriminate.
  repeat constructor.
Defined.

Lemma ReadDelimitedList_at_end_of_input_witness :
  ReadDelimitedList plainExternals seed1 3 (R ")") true VNil VNil
                    (reader_on (runes " ") VNil)
  = (Panic (Msg "EOF while reading"), mkState [] None [] VNil).
Proof.
  apply (ReadDelimitedList_at_end_of_input plainExternals seed1 0 (R ")") true
           VNil VNil (runes " ") None [] VNil); try reflexivity.
  repeat constructor.
Defined.

Lemma ReadDelimitedList_empty_witness :
  ReadDelimitedList plainExternals seed1 3 (R "]") true VNil VNil
                    (reader_on (runes " ] x") VNil)
  = (Ok [], mkState (runes " x") (Some (R "]")) [] VNil).
Proof.
  apply (ReadDelimitedList_empty plainExternals seed1 0 (R "]") true VNil VNil
           (runes " ") (runes " x") None [] VNil);
    try reflexivity; try discriminate.
  repeat constructor.
Defined.

(* ------------------------------------------------------------------ *)
(** ** Setting a validator on an [ARef] *)

(** [SetValidator] never installs the validator: it evaluates [a.Deref()]
    first, which is the method of [ARef] itself and panics, so the
    assignment is not reached; the object is as it was and [GetValidator]
    returns what it returned before. *)
Theorem SetValidator_never_installs
    (Fn PMap : Type) (AbstractClassMethodException : PanicVal)
    (vf : option Fn) (a : ARefModel.ARef Fn PMap) :
  ARefModel.SetValidator Fn PMap AbstractClassMethodException vf a
  = (Panic AbstractClassMethodException, a)
  /\
  ARefModel.GetValidator Fn PMap
    (snd (ARefModel.SetValidator Fn PMap AbstractClassMethodException vf a))
  = ARefModel.GetValidator Fn PMap a.
Proof.
  split; reflexivity.
Qed.

(* ------------------------------------------------------------------ *)
(** ** Var-quote *)

(** [#'] followed by a plain name reads as the two-element list of the
    symbol [var] and the symbol of that name: the dispatch reader finds the
    var reader, which reads the next form and wraps it.  The terminator of
    the name is pushed back and one pending list has been allocated. *)
Theorem Read_var_quote
    (X : Externals) (read_eof read_finished : Z) (k : nat)
    (c : rune) (cs : list rune) (t : rune) (rest : list rune) :
  let G := package read_eof read_finished in
  IsSpace c = false ->
  IsDigit X c = false ->
  macros G c = None ->
  (c =? R "+") || (c =? R "-") = false ->
  Forall (token_rune G) cs ->
  IsSpace t || IsTerminatingMacro G t = true ->
  name_rune c -> Forall name_rune cs ->
  c :: cs <> runes "nil" -> c :: cs <> runes "true" -> c :: cs <> runes "false" ->
  read_top X G (6 + k)
           (reader_on (R "#" :: R "'" :: c :: cs ++ t :: rest) VNil)
  = (Ok (VList [VSymbol THE_VAR; VSymbol (InternSymbol (c :: cs))]),
     mkState (t :: rest) None [[]] VNil).
Proof.
  intros G Hsp Hdig Hmac Hsign Htok Hterm Hc Hcs Hnil Htrue Hfalse.
  unfold read_top, reader_on.
  change (6 + k)%nat with (S (S (S (S (S (S k)))))).
  rewrite (Read_at_macro X G (S (S (S (S k)))) true VNil 0 VNil false VNil
             VNil (R "#") _ None [] VNil DispatchReader); try reflexivity.
  rewrite Invoke_S. unfold bind at 1. cbn [ReadRune input lists READEVAL].
  replace (dispatchMacros G (R "'")) with (Some VarReader) by reflexivity.
  rewrite Invoke_S. unfold bind at 1.
  cbn [ensurePending list_New input lastRune lists READEVAL List.length app].
  unfold bind at 1.
  rewrite (Read_plain_symbol X G k true VNil 0 VNil true VNil (VListPtr 0)
             c cs t rest (Some (R "'")) [[]] VNil);
    try assumption; reflexivity.
Qed.

Lemma Read_var_quote_witness :
  read_top plainExternals seed1 6 (reader_on (runes "#'foo)") VNil)
  = (Ok (VList [VSymbol THE_VAR; VSymbol (InternSymbol (runes "foo"))]),
     mkState (runes ")") None [[]] VNil).
Proof.
  apply (Read_var_quote plainExternals seed1_EOF seed1_FINISHED 0 (R "f")
           (runes "oo") (R ")") []); try reflexivity; try discriminate.
  - repeat constructor.
  - split; reflexivity.
  - repeat constructor.
Defined.
